(** * NGN data layer: checksum utility, Model and Store

    A shallow embedding of the data subsystem of ngn-core
    (NGN.DATA.util, NGN.DATA.Model, NGN.DATA.Store) and the properties
    of its specification that were checked against it.

    Conventions of the embedding.
    - JavaScript values that records hold are the primitives
      [undefined], [null], booleans, integral numbers and strings
      (one code unit per character).  Nested objects, arrays, dates and
      fractional or NaN numbers are outside the embedding.
    - A JavaScript object used as an ordered map is an association list
      in insertion order; its keys are distinct and are not canonical
      array indices.
    - Objects that are compared by reference carry an identity [ref].
      A store holds its records by value: assigning a field of a stored
      record, which the store follows through its listeners, is not part
      of the embedding.
    - Code that can throw runs in a state-and-exception monad: the state
      reached when the exception leaves the method is kept.
    - Event emission is recorded in a log; handlers are the caller's.
    - Relationship fields, virtual fields and the global event bus are
      outside the embedding: [relationships] and [virtuals] are empty.
    - Field names are not names of the members a Model instance has of
      its own ([raw], [fields], [changelog], [validation], ...).  The
      instances made from one configuration share its [fields] object;
      here each instance has its copy.  [serialize] leaves a key
      [nonEnumerableProperties] on [raw], which no other code reads, and
      [reverseMap] is cached; neither is kept here.
    - Host functions ([JSON.stringify], [localeCompare], the conversion
      of text to a number, the identifier generator, [Array.prototype.sort])
      are modelled where a definition says so and are parameters
      otherwise. *)

From Stdlib Require Import ZArith List String Ascii Bool Lia.
From Stdlib Require Import DecimalString.
From Stdlib Require Import Permutation.
Import ListNotations.

Open Scope string_scope.
Open Scope list_scope.
Open Scope Z_scope.

(* ================================================================== *)
(** ** JavaScript primitives *)
(* ================================================================== *)

Module JS.

(** 32-bit conversions of the bitwise operators. *)
Definition ToUint32 (z : Z) : Z := z mod 2 ^ 32.

Definition ToInt32 (z : Z) : Z :=
  let u := z mod 2 ^ 32 in
  if u <? 2 ^ 31 then u else u - 2 ^ 32.

(** [a ^ b] *)
Definition xor (a b : Z) : Z := ToInt32 (Z.lxor (ToInt32 a) (ToInt32 b)).

(** [a & b] *)
Definition and (a b : Z) : Z := ToInt32 (Z.land (ToInt32 a) (ToInt32 b)).

(** [a >>> k] *)
Definition ushr (a k : Z) : Z := Z.shiftr (ToUint32 a) (k mod 32).

(** Primitive values. *)
Inductive value : Type :=
| VUndef
| VNull
| VBool (b : bool)
| VNum (n : Z)
| VStr (s : string).

Definition value_eq_dec (a b : value) : {a = b} + {a <> b}.
Proof.
  decide equality.
  - apply Bool.bool_dec.
  - apply Z.eq_dec.
  - apply string_dec.
Defined.

(** [a === b] on primitives. *)
Definition strict_eq (a b : value) : bool :=
  if value_eq_dec a b then true else false.

(** Truthiness. *)
Definition truthy (v : value) : bool :=
  match v with
  | VUndef | VNull => false
  | VBool b => b
  | VNum n => negb (n =? 0)
  | VStr s => negb (String.eqb s EmptyString)
  end.

(** [a || b] *)
Definition or_else (a b : value) : value := if truthy a then a else b.

Definition string_of_Z (n : Z) : string := NilZero.string_of_int (Z.to_int n).

(** [String(v)], also the property key a value denotes. *)
Definition to_string (v : value) : string :=
  match v with
  | VUndef => "undefined"
  | VNull => "null"
  | VBool true => "true"
  | VBool false => "false"
  | VNum n => string_of_Z n
  | VStr s => s
  end.

(** [str.charCodeAt(i)] for every [i], in order. *)
Definition char_codes (s : string) : list Z :=
  map (fun c => Z.of_N (N_of_ascii c)) (list_ascii_of_string s).

(** Objects as ordered maps. *)
Definition obj : Type := list (string * value).

Fixpoint lookup {A : Type} (k : string) (o : list (string * A)) : option A :=
  match o with
  | [] => None
  | (k', v) :: rest => if String.eqb k k' then Some v else lookup k rest
  end.

(** [o.hasOwnProperty(k)] *)
Definition has {A : Type} (k : string) (o : list (string * A)) : bool :=
  match lookup k o with Some _ => true | None => false end.

(** [o[k]] *)
Definition get (k : string) (o : obj) : value :=
  match lookup k o with Some v => v | None => VUndef end.

(** [o[k] = v]: an existing key keeps its place, a new one goes last. *)
Fixpoint set {A : Type} (k : string) (v : A) (o : list (string * A))
  : list (string * A) :=
  match o with
  | [] => [(k, v)]
  | (k', v') :: rest =>
      if String.eqb k k' then (k, v) :: rest else (k', v') :: set k v rest
  end.

(** [delete o[k]] *)
Fixpoint delete {A : Type} (k : string) (o : list (string * A))
  : list (string * A) :=
  match o with
  | [] => []
  | (k', v') :: rest =>
      if String.eqb k k' then rest else (k', v') :: delete k rest
  end.

(** [Object.keys(o)] *)
Definition keys {A : Type} (o : list (string * A)) : list string := map fst o.

(** [s.trim()]: white space of the one-byte range. *)
Definition is_space (c : ascii) : bool :=
  let n := nat_of_ascii c in
  ((9 <=? n) && (n <=? 13) || (n =? 32) || (n =? 160))%nat.

Fixpoint trim_start (s : string) : string :=
  match s with
  | String c rest => if is_space c then trim_start rest else s
  | EmptyString => EmptyString
  end.

Fixpoint rev_string (s acc : string) : string :=
  match s with
  | String c rest => rev_string rest (String c acc)
  | EmptyString => acc
  end.

Definition trim (s : string) : string :=
  rev_string (trim_start (rev_string (trim_start s) EmptyString)) EmptyString.

(** [s.toLowerCase()] on the one-byte range. *)
Definition lower_char (c : ascii) : ascii :=
  let n := nat_of_ascii c in
  if ((65 <=? n) && (n <=? 90)
      || (192 <=? n) && (n <=? 222) && negb (n =? 215))%nat
  then ascii_of_nat (n + 32) else c.

Fixpoint toLowerCase (s : string) : string :=
  match s with
  | String c rest => String (lower_char c) (toLowerCase rest)
  | EmptyString => EmptyString
  end.

(** [JSON.stringify] of a string: quotes, with the two-character
    escapes and [\u00XX] for the other control characters. *)
Definition hex_digit (n : nat) : ascii :=
  ascii_of_nat (if (n <? 10)%nat then 48 + n else 87 + n).

Definition dquote : string := String (ascii_of_nat 34) EmptyString.

Definition quote_char (c : ascii) : string :=
  let n := nat_of_ascii c in
  if (n =? 34)%nat then ("\" ++ dquote)%string
  else if (n =? 92)%nat then "\\"
  else if (n =? 8)%nat then "\b"
  else if (n =? 9)%nat then "\t"
  else if (n =? 10)%nat then "\n"
  else if (n =? 12)%nat then "\f"
  else if (n =? 13)%nat then "\r"
  else if (n <? 32)%nat
       then ("\u00" ++ String (hex_digit (n / 16))
                         (String (hex_digit (n mod 16)) EmptyString))%string
  else String c EmptyString.

Fixpoint quote_body (s : string) : string :=
  match s with
  | String c rest => (quote_char c ++ quote_body rest)%string
  | EmptyString => EmptyString
  end.

Definition quote (s : string) : string :=
  (dquote ++ quote_body s ++ dquote)%string.

(** [JSON.stringify] of a primitive; [None] for [undefined], whose
    property is left out of the enclosing object. *)
Definition stringify_value (v : value) : option string :=
  match v with
  | VUndef => None
  | VNull => Some "null"
  | VBool true => Some "true"
  | VBool false => Some "false"
  | VNum n => Some (string_of_Z n)
  | VStr s => Some (quote s)
  end.

Fixpoint stringify_members (o : obj) : list string :=
  match o with
  | [] => []
  | (k, v) :: rest =>
      match stringify_value v with
      | Some t => (quote k ++ ":" ++ t)%string :: stringify_members rest
      | None => stringify_members rest
      end
  end.

(** [JSON.stringify(o)] for an object of primitives. *)
Definition JSON_stringify (o : obj) : string :=
  ("{" ++ String.concat "," (stringify_members o) ++ "}")%string.

(** [l.splice(start, deleteCount)]: the removed elements and what is
    left of the array. *)
Definition splice {A : Type} (l : list A) (start deleteCount : Z)
  : list A * list A :=
  let len := Z.of_nat (List.length l) in
  let actualStart :=
    if start <? 0 then Z.max (len + start) 0 else Z.min start len in
  let actualDelete := Z.min (Z.max deleteCount 0) (len - actualStart) in
  (firstn (Z.to_nat actualDelete) (skipn (Z.to_nat actualStart) l),
   firstn (Z.to_nat actualStart) l
     ++ skipn (Z.to_nat (actualStart + actualDelete)) l).

(** Outcome of a call: a returned value or a thrown error. *)
Inductive result (A : Type) : Type :=
| Ok (a : A)
| Throw (msg : string).
Arguments Ok {A} a.
Arguments Throw {A} msg.

Definition bind {A B : Type} (r : result A) (k : A -> result B) : result B :=
  match r with
  | Ok a => k a
  | Throw msg => Throw msg
  end.

(** A method running on a mutable receiver of type [S]. *)
Definition M (S A : Type) : Type := S -> result A * S.

Definition ret {S A : Type} (a : A) : M S A := fun s => (Ok a, s).
Definition throw {S A : Type} (msg : string) : M S A := fun s => (Throw msg, s).
Definition mbind {S A B : Type} (m : M S A) (k : A -> M S B) : M S B :=
  fun s =>
    match m s with
    | (Ok a, s') => k a s'
    | (Throw msg, s') => (Throw msg, s')
    end.
Definition modify {S : Type} (f : S -> S) : M S unit := fun s => (Ok tt, f s).
Definition gets {S A : Type} (f : S -> A) : M S A := fun s => (Ok (f s), s).
Definition lift {S A : Type} (r : result A) : M S A := fun s => (r, s).

(** [xs.forEach(f)] for an effectful [f]: stops at the first throw. *)
Fixpoint for_each {S A : Type} (f : A -> M S unit) (xs : list A) : M S unit :=
  match xs with
  | [] => ret tt
  | x :: rest => mbind (f x) (fun _ => for_each f rest)
  end.

End JS.

Declare Scope js_scope.
Delimit Scope js_scope with js.
Notation "x <- m ;; k" := (JS.mbind m (fun x => k))
  (at level 61, m at next level, right associativity) : js_scope.
Notation "m ;;; k" := (JS.mbind m (fun _ => k))
  (at level 61, right associativity) : js_scope.
Notation "'try' x <- r ;; k" := (JS.bind r (fun x => k))
  (at level 61, r at next level, x name, right associativity) : js_scope.

(* ================================================================== *)
(** ** NGN.DATA.util *)
(* ================================================================== *)

Module Util.

(** The inner loop body of [makeCRCTable]:
    [c = ((c & 1) ? (0xEDB88320 ^ (c >>> 1)) : (c >>> 1))]. *)
Definition crc_shift (c : Z) : Z :=
  if JS.and c 1 =? 0 then JS.ushr c 1 else JS.xor 3988292384 (JS.ushr c 1).

(** [makeCRCTable()]: entry [n] is [n] after eight rounds. *)
Definition makeCRCTable : list Z :=
  map (fun n => Nat.iter 8 crc_shift (Z.of_nat n)) (seq 0 256).

(** [crcTable[i]] inside [^]: a missing entry is [undefined], which
    the operator reads as 0. *)
Definition table_at (crcTable : list Z) (i : Z) : Z :=
  nth (Z.to_nat i) crcTable 0.

(** One round of the loop of [checksum]:
    [crc = (crc >>> 8) ^ crcTable[(crc ^ str.charCodeAt(i)) & 0xFF]]. *)
Definition crc_round (crcTable : list Z) (crc code : Z) : Z :=
  JS.xor (JS.ushr crc 8) (table_at crcTable (JS.and (JS.xor crc code) 255)).

(** [checksum(str)] with the cached table as state: [None] is the
    initial [crcTable: null].  Returns the value and the cache. *)
Definition checksum (cache : option (list Z)) (str : list Z)
  : Z * option (list Z) :=
  let crcTable := match cache with Some t => t | None => makeCRCTable end in
  let crc := fold_left (crc_round crcTable) str (JS.xor 0 (-1)) in
  (JS.ushr (JS.xor crc (-1)) 0, Some crcTable).

(** The value [checksum] returns for the text [s]. *)
Definition checksum_of (s : string) : Z :=
  fst (checksum None (JS.char_codes s)).

End Util.

(* ================================================================== *)
(** ** NGN.DATA.Model *)
(* ================================================================== *)

Module Model.
Import JS.
Local Open Scope js_scope.

Inductive action : Type := Create | Update | Delete.

(** An entry of the changelog.  Keys the code leaves out of an entry
    read [undefined]; an absent [join] reads [false]. *)
Record Change : Type := mkChange {
  c_action : action;
  c_field : string;
  c_old : value;
  c_new : value;
  c_value : value;
  c_join : bool
}.

(** Field types, by the name [NGN.typeof] gives their constructor. *)
Inductive jstype : Type :=
| TString
| TNumber
| TBoolean
| TOther (name : string).

Definition type_name (t : jstype) : string :=
  match t with
  | TString => "string"
  | TNumber => "number"
  | TBoolean => "boolean"
  | TOther name => name
  end.

(** [NGN.typeof(v)] for a primitive. *)
Definition typeof (v : value) : string :=
  match v with
  | VUndef => "undefined"
  | VNull => "null"
  | VBool _ => "boolean"
  | VNum _ => "number"
  | VStr _ => "string"
  end.

(** A field configuration object.  [f_rules] are the predicates that
    [addField] derives from the [pattern], [min], [max] and [enum] keys,
    in that order. *)
Record field_cfg : Type := mkField {
  f_required : option bool;
  f_type : option jstype;
  f_default : option value;
  f_rules : list (value -> bool)
}.

(** What a schema may write for a field: [null], a bare type, or a
    configuration object. *)
Inductive field_decl : Type :=
| FNull
| FType (t : jstype)
| FCfg (c : field_cfg).

(** The configuration given to [new NGN.DATA.Model(cfg)]. *)
Record config : Type := mkConfig {
  cfg_idAttribute : option string;
  cfg_fields : option (list (string * field_decl));
  cfg_autoid : option bool;
  cfg_dataMap : option (list (string * string));
  cfg_id : value
}.

(** A registered validator: a predicate on the value, or the
    [required] rule, which reads the instance. *)
Inductive validator : Type :=
| Rule (p : value -> bool)
| Required (field : string).

Inductive event : Type :=
| FieldUpdate (c : Change)
| FieldCreate (c : Change)
| FieldRemove (c : Change)
| FieldInvalid (field : string)
| ValidatorAdd (field : string).

(** A Model instance.  [raw] holds the values of the fields that have
    an accessor on the instance; [own] holds plain properties assigned
    under names that have none; [drawn] counts the identifiers this
    instance has taken from the generator; [emitted] is the log of its
    events, oldest first. *)
Record t : Type := mkModel {
  ref : nat;
  idAttribute : string;
  autoid : bool;
  oid : value;
  fields : list (string * option field_cfg);
  raw : obj;
  own : obj;
  validators : list (string * list validator);
  invalidDataAttributes : list string;
  changelog : list Change;
  benchmark : value;
  dataMap : option (list (string * string));
  drawn : nat;
  emitted : list event
}.

Definition with_oid (v : value) (m : t) : t :=
  mkModel (ref m) (idAttribute m) (autoid m) v (fields m) (raw m) (own m)
    (validators m) (invalidDataAttributes m) (changelog m) (benchmark m)
    (dataMap m) (drawn m) (emitted m).

Definition with_fields (fs : list (string * option field_cfg)) (m : t) : t :=
  mkModel (ref m) (idAttribute m) (autoid m) (oid m) fs (raw m) (own m)
    (validators m) (invalidDataAttributes m) (changelog m) (benchmark m)
    (dataMap m) (drawn m) (emitted m).

Definition with_raw (r : obj) (m : t) : t :=
  mkModel (ref m) (idAttribute m) (autoid m) (oid m) (fields m) r (own m)
    (validators m) (invalidDataAttributes m) (changelog m) (benchmark m)
    (dataMap m) (drawn m) (emitted m).

Definition with_own (o : obj) (m : t) : t :=
  mkModel (ref m) (idAttribute m) (autoid m) (oid m) (fields m) (raw m) o
    (validators m) (invalidDataAttributes m) (changelog m) (benchmark m)
    (dataMap m) (drawn m) (emitted m).

Definition with_validators (vs : list (string * list validator)) (m : t) : t :=
  mkModel (ref m) (idAttribute m) (autoid m) (oid m) (fields m) (raw m) (own m)
    vs (invalidDataAttributes m) (changelog m) (benchmark m)
    (dataMap m) (drawn m) (emitted m).

Definition with_invalid (l : list string) (m : t) : t :=
  mkModel (ref m) (idAttribute m) (autoid m) (oid m) (fields m) (raw m) (own m)
    (validators m) l (changelog m) (benchmark m)
    (dataMap m) (drawn m) (emitted m).

Definition with_changelog (l : list Change) (m : t) : t :=
  mkModel (ref m) (idAttribute m) (autoid m) (oid m) (fields m) (raw m) (own m)
    (validators m) (invalidDataAttributes m) l (benchmark m)
    (dataMap m) (drawn m) (emitted m).

Definition with_benchmark (b : value) (m : t) : t :=
  mkModel (ref m) (idAttribute m) (autoid m) (oid m) (fields m) (raw m) (own m)
    (validators m) (invalidDataAttributes m) (changelog m) b
    (dataMap m) (drawn m) (emitted m).

Definition with_drawn (n : nat) (m : t) : t :=
  mkModel (ref m) (idAttribute m) (autoid m) (oid m) (fields m) (raw m) (own m)
    (validators m) (invalidDataAttributes m) (changelog m) (benchmark m)
    (dataMap m) n (emitted m).

(** [this.emit(...)] *)
Definition emit (e : event) : M t unit :=
  modify (fun m =>
    mkModel (ref m) (idAttribute m) (autoid m) (oid m) (fields m) (raw m) (own m)
      (validators m) (invalidDataAttributes m) (changelog m) (benchmark m)
      (dataMap m) (drawn m) (emitted m ++ [e])).

(** [this.changelog.push(c)] *)
Definition log (c : Change) : M t unit :=
  modify (fun m => with_changelog (changelog m ++ [c]) m).

(** [me.hasOwnProperty(name)] for a data name: an accessor field or a
    plain property.  [id] is an accessor of the class, not of the
    instance. *)
Definition hasOwnProperty (m : t) (name : string) : bool :=
  has name (raw m) || has name (own m).

(** [me[name]] *)
Definition prop (m : t) (name : string) : value :=
  if String.eqb name "id" then oid m
  else match lookup name (raw m) with
       | Some v => v
       | None => get name (own m)
       end.

(** [get datafields] *)
Definition datafields (m : t) : list string := keys (fields m).

(** One registered validator applied to a value.  The [required] rule
    is [me.hasOwnProperty(field) && me[value] !== null]. *)
Definition run_validator (m : t) (v : validator) (val : value) : bool :=
  match v with
  | Rule p => p val
  | Required field =>
      hasOwnProperty m field && negb (strict_eq (prop m (to_string val)) VNull)
  end.

(** [validateDataType(field)] *)
Definition validateDataType (m : t) (field : string) : result bool :=
  let fieldType := typeof (prop m field) in
  match lookup field (fields m) with
  | Some (Some fc) =>
      let expectedType :=
        match f_type fc with Some ty => type_name ty | None => "undefined" end in
      if negb (String.eqb fieldType "null") then
        Ok (String.eqb fieldType expectedType)
      else if match f_required fc with Some true => true | _ => false end then
        Ok (autoid m && String.eqb field (idAttribute m))
      else Ok true
  | _ => Throw "TypeError: cannot read property type"
  end.

(** The loop of [validate] over the validators of one attribute:
    [false] as soon as one fails, [true] when the loop runs out. *)
Fixpoint run_validators (attribute : string) (vs : list validator)
  : M t bool :=
  match vs with
  | [] => ret true
  | v :: rest =>
      fun m =>
        if negb (run_validator m v (prop m attribute)) then
          (Ok false,
           if existsb (String.eqb attribute) (invalidDataAttributes m) then m
           else with_invalid (invalidDataAttributes m ++ [attribute]) m)
        else
          run_validators attribute rest
            (with_invalid
               (filter (fun attr => negb (String.eqb attribute attr))
                  (invalidDataAttributes m)) m)
  end.

(** [validate(attribute)] for a non-empty attribute name. *)
Definition validate_one (attribute : string) : M t bool :=
  fun m =>
    match lookup attribute (validators m) with
    | Some vs =>
        (passed <- run_validators attribute vs ;;
         if passed then
           typed <- (fun m' => (validateDataType m' attribute, m')) ;;
           if typed then ret true
           else
             modify (fun m' =>
               with_invalid (invalidDataAttributes m' ++ [attribute]) m') ;;;
             ret false
         else ret false) m
    | None => (Ok true, m)
    end.

(** [validate(attribute)], to the truthiness of what it returns.  The
    empty name is falsy: the call then validates every data field and
    returns [undefined]; when the empty name is itself a data field the
    recursion never ends and the call stack overflows. *)
Definition validate (attribute : string) : M t bool :=
  if String.eqb attribute EmptyString then
    fun m =>
      if existsb (String.eqb EmptyString) (datafields m) then
        (Throw "RangeError: Maximum call stack size exceeded", m)
      else
        (for_each (fun f => validate_one f ;;; ret tt) (datafields m) ;;;
         ret false) m
  else validate_one attribute.

(** The setter that [addField] installs for [field]. *)
Definition set_field (field : string) (value : value) : M t unit :=
  old <- gets (fun m => get field (raw m)) ;;
  modify (fun m => with_raw (set field value (raw m)) m) ;;;
  let c := mkChange Update field old value VUndef false in
  log c ;;;
  emit (FieldUpdate c) ;;;
  ok <- validate field ;;
  if ok then ret tt else emit (FieldInvalid field).

(** [me[name] = value] *)
Definition assign (name : string) (value : value) : M t unit :=
  fun m =>
    if String.eqb name "id" then (Ok tt, with_oid value m)
    else if has name (raw m) then set_field name value m
    else (Ok tt, with_own (set name value (own m)) m).

(** [addValidator(property, validator)] *)
Definition addValidator (property : string) (v : validator) : M t unit :=
  fun m =>
    if negb (hasOwnProperty m property) then (Ok tt, m)
    else
      (modify (fun m' =>
         let registered :=
           match lookup property (validators m') with
           | Some vs => vs
           | None => []
           end in
         with_validators (set property (registered ++ [v]) (validators m')) m') ;;;
       emit (ValidatorAdd property)) m.

Section Host.

(** [NGN.DATA.util.GUID()]: the [n]-th identifier generated for the
    instance [ref]. *)
Variable GUID : nat -> nat -> string.

Definition draw_guid : M t string :=
  fun m => (Ok (GUID (ref m) (drawn m)), with_drawn (S (drawn m)) m).

(** The type [addField] gives a field whose configuration has none:
    [eval] of the capitalised type name of the default, which is not
    bound for [null] and [undefined]. *)
Definition infer_type (fc : field_cfg) : result (option jstype) :=
  match f_type fc with
  | Some ty => Ok (Some ty)
  | None =>
      match f_default fc with
      | Some (VStr _) => Ok (Some TString)
      | Some (VNum _) => Ok (Some TNumber)
      | Some (VBool _) => Ok (Some TBoolean)
      | Some VNull => Throw "ReferenceError: Null is not defined"
      | Some VUndef => Throw "ReferenceError: Undefined is not defined"
      | None => Ok None
      end
  end.

(** [addField(field, suppressEvents)] *)
Definition addField (field : string) (suppressEvents : bool) : M t unit :=
  if negb (String.eqb (toLowerCase field) "id") then
    accessor <- gets (fun m => has field (raw m)) ;;
    current <- gets (fun m => prop m field) ;;
    modify (fun m => with_own (delete field (own m)) m) ;;;
    fc <- gets (fun m =>
            match lookup field (fields m) with
            | Some (Some c) => c
            | _ => mkField None None None []
            end) ;;
    let required := match f_required fc with Some b => b | None => false end in
    modify (fun m =>
      with_fields
        (set field (Some (mkField (Some required) (f_type fc) (f_default fc)
                            (f_rules fc))) (fields m)) m) ;;;
    inferred <- lift (infer_type fc) ;;
    own_id <- gets (fun m => String.eqb field (idAttribute m) && autoid m) ;;
    default <- (if own_id then g <- draw_guid ;; ret (VStr g)
                else ret (or_else (match f_default fc with
                                   | Some d => d
                                   | None => VUndef
                                   end) VNull)) ;;
    let type := if own_id then TString
                else match inferred with Some ty => ty | None => TString end in
    modify (fun m =>
      with_fields
        (set field (Some (mkField (Some required) (Some type) (Some default)
                            (f_rules fc))) (fields m)) m) ;;;
    modify (fun m => with_raw (set field default (raw m)) m) ;;;
    (if accessor && strict_eq current VUndef
     then set_field field default else ret tt) ;;;
    (if suppressEvents then ret tt
     else
       let c := mkChange Create field VUndef VUndef VUndef false in
       log c ;;; emit (FieldCreate c)) ;;;
    for_each (fun p => addValidator field (Rule p)) (f_rules fc) ;;;
    (if required then addValidator field (Required field) else ret tt)
  else
    fun m =>
      if strict_eq (oid m) VNull && autoid m then
        (g <- draw_guid ;; modify (with_oid (VStr g))) m
      else (Ok tt, m).

(** [a.splice(a.indexOf(x), 1)] when [x] occurs in [a]. *)
Fixpoint remove_first (x : string) (a : list string) : list string :=
  match a with
  | [] => []
  | y :: rest => if String.eqb x y then rest else y :: remove_first x rest
  end.

(** [removeField(name)] *)
Definition removeField (name : string) : M t unit :=
  fun m =>
    if has name (raw m) then
      let val := get name (raw m) in
      let c := mkChange Delete name VUndef VUndef val false in
      (modify (fun m' =>
         with_invalid (remove_first name (invalidDataAttributes m'))
           (with_raw (delete name (raw m'))
              (with_fields (delete name (fields m')) m'))) ;;;
       emit (FieldRemove c) ;;;
       log c) m
    else (Ok tt, m).

(** The test [serialize] makes on the first character of a key:
    [/^[a-z0-9 ]$/]. *)
Definition key_start_ok (key : string) : bool :=
  match key with
  | String c _ =>
      let n := nat_of_ascii c in
      ((97 <=? n) && (n <=? 122) || (48 <=? n) && (n <=? 57) || (n =? 32))%nat
  | EmptyString => false
  end.

(** The loop of [serialize] over the keys of [raw].  A key that fails
    the first test while its value is defined reaches
    [_obj.enumerableProperties.indexOf], and [enumerableProperties] is
    not defined on [raw]. *)
Fixpoint serialize_keys (m : t) (ks : list string) (rtn : obj) : result obj :=
  match ks with
  | [] => Ok rtn
  | key0 :: rest =>
      if has key0 (fields m) then
        let key := if String.eqb key0 "id" then idAttribute m else key0 in
        if has key (raw m) && negb (String.eqb key EmptyString)
           && key_start_ok key
        then serialize_keys m rest (set key (get key (raw m)) rtn)
        else if negb (strict_eq (get key (raw m)) VUndef)
        then Throw "TypeError: Cannot read property 'indexOf' of undefined"
        else serialize_keys m rest rtn
      else serialize_keys m rest rtn
  end.

(** [serialize()] *)
Definition serialize (m : t) : result obj := serialize_keys m (keys (raw m)) [].

(** The renaming loop shared by [data] (with [dataMap]) and [load]
    (with [reverseMap]): [d[map[key]] = d[key]; delete d[key]]. *)
Definition rename_keys (names : list (string * string)) (d : obj) : obj :=
  fold_left
    (fun d key =>
       if has key d then
         delete key
           (set (match lookup key names with Some n => n | None => key end)
              (get key d) d)
       else d)
    (keys names) d.

(** [get data] *)
Definition data (m : t) : result obj :=
  try d <- serialize m ;;
  let d := if negb (has (idAttribute m) d) && autoid m
           then set (idAttribute m) (prop m (idAttribute m)) d else d in
  Ok (match dataMap m with
      | Some dm => rename_keys dm d
      | None => d
      end).

(** [get checksum] *)
Definition checksum (m : t) : result Z :=
  try d <- data m ;; Ok (Util.checksum_of (JSON_stringify d)).

(** [get modified] *)
Definition modified (m : t) : result bool :=
  try c <- checksum m ;; Ok (negb (strict_eq (VNum c) (benchmark m))).

(** [get history]: [Array.prototype.reverse] reverses the changelog
    array where it is and returns that same array. *)
Definition history : M t (list Change) :=
  fun m => (Ok (rev (changelog m)), with_changelog (rev (changelog m)) m).

(** [setUnmodified()] *)
Definition setUnmodified : M t unit :=
  fun m =>
    match checksum m with
    | Ok c => (Ok tt, with_changelog [] (with_benchmark (VNum c) m))
    | Throw e => (Throw e, m)
    end.

(** The body of the loop of [undo] for one change.  Without
    relationships [removeRelationshipField] finds nothing to remove and
    [addRelationshipField], called without a configuration, throws. *)
Definition undo_change (change : Change) : M t unit :=
  if negb (c_join change) then
    match c_action change with
    | Update => assign (c_field change) (c_old change)
    | Create => removeField (c_field change)
    | Delete =>
        addField (c_field change) false ;;;
        assign (c_field change) VUndef
    end
  else
    match c_action change with
    | Create => ret tt
    | Delete => throw "TypeError: cannot read property type of undefined"
    | Update => ret tt
    end.

(** [undo(back)] *)
Definition undo (back : option Z) : M t unit :=
  let back := match back with
              | Some b => if b =? 0 then 1 else b
              | None => 1
              end in
  old <- (fun m =>
            let '(removed, remaining) :=
              splice (changelog m) (Z.of_nat (List.length (changelog m)) - back) back in
            (Ok removed, with_changelog remaining m)) ;;
  for_each undo_change (rev old).

(** [get reverseMap] *)
Definition reverseMap (m : t) : option (list (string * string)) :=
  match dataMap m with
  | Some dm =>
      Some (fold_left
              (fun rmap attr =>
                 set (match lookup attr dm with Some n => n | None => attr end)
                   attr rmap)
              (keys dm) [])
  | None => None
  end.

(** The body of the loop of [load] for one key of the data. *)
Definition load_key (d : obj) (key : string) : M t unit :=
  modify (fun m' =>
    if has key (fields m') then
      if has key (raw m') then with_raw (set key (get key d) (raw m')) m'
      else if String.eqb key (idAttribute m') then with_oid (get key d) m'
      else m'
    else m').

(** [load(data)] *)
Definition load (data : obj) : M t unit :=
  fun m =>
    let data := match reverseMap m with
                | Some rm => rename_keys rm data
                | None => data
                end in
    (for_each (load_key data) (keys data) ;;;
     setUnmodified) m.

(** The field the constructor supplies for [id]. *)
Definition id_field (cfg : config) : field_decl :=
  FCfg (mkField (Some true) (Some TString) (Some (or_else (cfg_id cfg) VNull)) []).

(** The constructor's reading of a declaration: a bare type becomes a
    required field of that type, [null] stays [null]. *)
Definition declared (d : field_decl) : option field_cfg :=
  match d with
  | FNull => None
  | FType ty => Some (mkField (Some true) (Some ty) (Some VNull) [])
  | FCfg c => Some c
  end.

(** [new Model(config)] for the object allocated at [ref].  [oid]
    starts as [null]: [config[this.idAttribute]] is read before
    [idAttribute] is defined. *)
Definition create (ref : nat) (cfg : config) : result t :=
  let idAttribute := match cfg_idAttribute cfg with
                     | Some s => if String.eqb s EmptyString then "id" else s
                     | None => "id"
                     end in
  let fs := match cfg_fields cfg with
            | Some fs => fs
            | None => [("id", id_field cfg)]
            end in
  let fs := if has "id" fs then fs else fs ++ [("id", id_field cfg)] in
  let m0 := mkModel ref idAttribute
              (match cfg_autoid cfg with Some b => b | None => false end)
              VNull (map (fun kd => (fst kd, declared (snd kd))) fs) [] []
              [] [] [] VNull (cfg_dataMap cfg) 0 [] in
  match for_each (fun field => addField field true) (keys fs) m0 with
  | (Ok _, m) => Ok m
  | (Throw e, _) => Throw e
  end.

(** [new (NGN.DATA.Model(cfg))(data)]: the loader that a model
    definition returns. *)
Definition construct (ref : nat) (cfg : config) (data : option obj) : result t :=
  try m <- create ref cfg ;;
  match data with
  | Some d =>
      match load d m with
      | (Ok _, m') => Ok m'
      | (Throw e, _) => Throw e
      end
  | None => Ok m
  end.

End Host.

End Model.

(* ================================================================== *)
(** ** NGN.DATA.Store *)
(* ================================================================== *)

Module Store.
Import JS.
Local Open Scope js_scope.

(** An index bucket, as the array the code keeps: the field value
    first, then the positions of the records that hold it. *)
Definition bucket : Type := list value.

(** What [add] ends up handling: a Model instance, or the plain object
    it was given when the store has no model. *)
Inductive candidate : Type :=
| Entity (m : Model.t)
| Plain (o : obj).

Inductive event : Type :=
| RecordDuplicate (record : candidate)
| RecordCreate (record : Model.t)
| RecordDelete (record : Model.t)
| Load
| Reload
| Clear.

(** The configuration given to [new NGN.DATA.Store(cfg)]. *)
Record config : Type := mkConfig {
  cfg_model : option Model.config;
  cfg_index : option (list string);
  cfg_allowDuplicates : option bool;
  cfg_errorOnDuplicate : option bool
}.

(** A Store.  [_data] holds Model instances only: [add] cannot get a
    plain object past [listen].  [next_ref] is the identity the next
    object created by the store receives; [emitted] is the log of its
    events, oldest first. *)
Record t : Type := mkStore {
  model : option Model.config;
  _data : list Model.t;
  _filters : list (Model.t -> bool);
  _index : list (string * list bucket);
  _created : list Model.t;
  _deleted : list Model.t;
  _loading : bool;
  allowDuplicates : bool;
  errorOnDuplicate : bool;
  next_ref : nat;
  emitted : list event
}.

Definition with_data (d : list Model.t) (s : t) : t :=
  mkStore (model s) d (_filters s) (_index s) (_created s) (_deleted s)
    (_loading s) (allowDuplicates s) (errorOnDuplicate s) (next_ref s) (emitted s).

Definition with_index (i : list (string * list bucket)) (s : t) : t :=
  mkStore (model s) (_data s) (_filters s) i (_created s) (_deleted s)
    (_loading s) (allowDuplicates s) (errorOnDuplicate s) (next_ref s) (emitted s).

Definition with_created (c : list Model.t) (s : t) : t :=
  mkStore (model s) (_data s) (_filters s) (_index s) c (_deleted s)
    (_loading s) (allowDuplicates s) (errorOnDuplicate s) (next_ref s) (emitted s).

Definition with_deleted (d : list Model.t) (s : t) : t :=
  mkStore (model s) (_data s) (_filters s) (_index s) (_created s) d
    (_loading s) (allowDuplicates s) (errorOnDuplicate s) (next_ref s) (emitted s).

Definition with_loading (b : bool) (s : t) : t :=
  mkStore (model s) (_data s) (_filters s) (_index s) (_created s) (_deleted s)
    b (allowDuplicates s) (errorOnDuplicate s) (next_ref s) (emitted s).

Definition with_next_ref (n : nat) (s : t) : t :=
  mkStore (model s) (_data s) (_filters s) (_index s) (_created s) (_deleted s)
    (_loading s) (allowDuplicates s) (errorOnDuplicate s) n (emitted s).

(** [this.emit(...)] *)
Definition emit (e : event) : M t unit :=
  modify (fun s =>
    mkStore (model s) (_data s) (_filters s) (_index s) (_created s) (_deleted s)
      (_loading s) (allowDuplicates s) (errorOnDuplicate s) (next_ref s)
      (emitted s ++ [e])).

(** [new NGN.DATA.Store(cfg)], the objects it creates being numbered
    from [first_ref]. *)
Definition create (first_ref : nat) (cfg : config) : t :=
  mkStore (cfg_model cfg) [] []
    (fold_left (fun o i => set i [] o)
       (match cfg_index cfg with Some l => l | None => [] end) [])
    [] [] false
    (match cfg_allowDuplicates cfg with Some b => b | None => true end)
    (match cfg_errorOnDuplicate cfg with
     | Some b => b
     | None => match cfg_allowDuplicates cfg with Some b => b | None => true end
     end)
    first_ref [].

(** [applyFilters(data)] *)
Definition applyFilters (s : t) (data : list Model.t) : list Model.t :=
  fold_left (fun data f => filter f data) (_filters s) data.

(** [get records] *)
Definition records (s : t) : list Model.t := applyFilters s (_data s).


(** [array.map(f)] for an [f] that can throw. *)
Fixpoint map_result {A B : Type} (f : A -> result B) (l : list A)
  : result (list B) :=
  match l with
  | [] => Ok []
  | x :: rest =>
      try y <- f x ;;
      try ys <- map_result f rest ;;
      Ok (y :: ys)
  end.

(** [get data] *)
Definition data (s : t) : result (list obj) := map_result Model.data (_data s).

(** [this._data.indexOf(record) >= 0]: the same object. *)
Definition holds (s : t) (record : candidate) : bool :=
  match record with
  | Entity m => existsb (fun rec => Nat.eqb (Model.ref rec) (Model.ref m)) (_data s)
  | Plain _ => false
  end.

(** [record.checksum] *)
Definition checksum_of (record : candidate) : result value :=
  match record with
  | Entity m => try c <- Model.checksum m ;; Ok (VNum c)
  | Plain o => Ok (get "checksum" o)
  end.

(** [isDuplicate(record)] *)
Definition isDuplicate (s : t) (record : candidate) : result bool :=
  if holds s record then Ok false
  else
    try matches <-
      map_result
        (fun rec =>
           try c <- Model.checksum rec ;;
           try c' <- checksum_of record ;;
           Ok (strict_eq (VNum c) c'))
        (_data s) ;;
    Ok (0 <? Z.of_nat (List.length (filter (fun b => b) matches))).

(** The loop of [applyIndices] over the buckets of one field. *)
Fixpoint apply_bucket (v : value) (number : Z) (values : list bucket)
  : list bucket :=
  match values with
  | [] => [[v; VNum number]]
  | b :: rest =>
      if strict_eq (hd VUndef b) v then (b ++ [VNum number]) :: rest
      else b :: apply_bucket v number rest
  end.

(** [applyIndices(record, number)] *)
Definition applyIndices (record : Model.t) (number : Z)
  (index : list (string * list bucket)) : list (string * list bucket) :=
  map (fun fv =>
         if Model.hasOwnProperty record (fst fv)
         then (fst fv, apply_bucket (Model.prop record (fst fv)) number (snd fv))
         else fv)
      index.

(** [values.indexOf(num)] in [unapplyIndices]: the elements of [values]
    are buckets, and an array is never [===] to a number. *)
Definition bucket_is (b : bucket) (num : Z) : bool := false.

Fixpoint bucket_index_of (num : Z) (values : list bucket) (i : nat) : option nat :=
  match values with
  | [] => None
  | b :: rest => if bucket_is b num then Some i else bucket_index_of num rest (S i)
  end.

(** [unapplyIndices(num)] *)
Definition unapplyIndices (num : Z) (index : list (string * list bucket))
  : list (string * list bucket) :=
  map (fun fv =>
         match bucket_index_of num (snd fv) 0 with
         | Some i => (fst fv, firstn i (snd fv) ++ skipn (S i) (snd fv))
         | None => fv
         end)
      index.

(** [b.length > 0 && b[0] === value] *)
Definition bucket_matches (v : value) (b : bucket) : bool :=
  match b with
  | [] => false
  | h :: _ => strict_eq h v
  end.

(** [indexes[0].shift()], seen from the array of buckets: the first
    bucket that matches loses its leading element. *)
Fixpoint shift_match (v : value) (values : list bucket) : list bucket :=
  match values with
  | [] => []
  | b :: rest =>
      if bucket_matches v b then tl b :: rest else b :: shift_match v rest
  end.

(** [getIndices(field, value)]: [None] is [null]. *)
Definition getIndices (field : string) (v : value) : M t (option (list value)) :=
  fun s =>
    match lookup field (_index s) with
    | None => (Ok None, s)
    | Some values =>
        match filter (bucket_matches v) values with
        | [b] =>
            (Ok (Some (tl b)),
             with_index (set field (shift_match v values) (_index s)) s)
        | _ => (Ok (Some []), s)
        end
    end.

(** [clearIndices()] *)
Definition clearIndices (index : list (string * list bucket))
  : list (string * list bucket) :=
  map (fun fv => (fst fv, [])) index.

(** The loop of [reindex] over [_data], from position [i]. *)
Fixpoint apply_all (l : list Model.t) (i : Z)
  (index : list (string * list bucket)) : list (string * list bucket) :=
  match l with
  | [] => index
  | record :: rest => apply_all rest (i + 1) (applyIndices record i index)
  end.

(** [reindex()] *)
Definition reindex : M t unit :=
  modify (fun s => with_index (apply_all (_data s) 0 (clearIndices (_index s))) s).

(** What [add] may be given. *)
Inductive arg : Type :=
| AEntity (m : Model.t)
| AObject (o : obj)       (* a plain object, or the JSON text of one *)
| ANull
| APrimitive.             (* anything whose [typeof] is not ['object'] *)

(** What [remove] may be given. *)
Inductive target : Type :=
| TIndex (n : Z)
| TEntity (m : Model.t)
| TObject (o : obj).

(** What [find] may be given.  A Model instance is read as a map of
    its enumerable fields like any other object: the test
    [query instanceof NGN.DATA.Model] names the loader factory, of
    which no record is an instance. *)
Inductive query : Type :=
| QFunction (f : Model.t -> bool)
| QNumber (n : Z)
| QString (s : string)
| QObject (q : obj)
| QNull
| QNone.

(** What [find] returns: [null], one record, or an array whose
    elements are records or [undefined]. *)
Inductive found : Type :=
| Null
| One (m : Model.t)
| Many (l : list (option Model.t)).

(** [this._data[index]] for an entry of a bucket. *)
Definition data_at (s : t) (index : value) : option Model.t :=
  match index with
  | VNum n => if n <? 0 then None else nth_error (_data s) (Z.to_nat n)
  | _ => None
  end.

(** [this._data.findIndex(el => el.checksum === c)], [-1] when no
    element passes. *)
Fixpoint findIndex (c : value) (l : list Model.t) (i : Z) : result Z :=
  match l with
  | [] => Ok (-1)
  | el :: rest =>
      try c' <- Model.checksum el ;;
      if strict_eq (VNum c') c then Ok i else findIndex c rest (i + 1)
  end.

(** [indexOf(record)] *)
Definition indexOf (s : t) (record : candidate) : result Z :=
  match record with
  | Entity m => try c <- Model.checksum m ;; findIndex (VNum c) (_data s) 0
  | Plain o =>
      if negb (truthy (get "checksum" o)) then Ok (-1)
      else findIndex (get "checksum" o) (_data s) 0
  end.

(** [contains(record)] *)
Definition contains (s : t) (record : candidate) : result bool :=
  try i <- indexOf s record ;; Ok (0 <=? i).

(** [a.indexOf(record)] on an array of records. *)
Definition position (record : Model.t) (a : list Model.t) : option nat :=
  let fix go (a : list Model.t) (i : nat) : option nat :=
    match a with
    | [] => None
    | x :: rest =>
        if Nat.eqb (Model.ref x) (Model.ref record) then Some i
        else go rest (S i)
    end in
  go a 0%nat.

Section Host.

Variable GUID : nat -> nat -> string.

(** [a.localeCompare(b)] of the host. *)
Variable localeCompare : string -> string -> Z.

(** The number a string converts to, [None] for [NaN]. *)
Variable StringToNumber : string -> option Z.

(** The first block of [add]: the record that stands for [data]. *)
Definition resolve (data : arg) : M t candidate :=
  fun s =>
    match data with
    | AEntity m => (Ok (Entity m), s)
    | APrimitive => (Throw "Cannot add a non-object record.", s)
    | AObject o =>
        match model s with
        | Some cfg =>
            (try m <- Model.construct GUID (next_ref s) cfg (Some o) ;;
             Ok (Entity m),
             with_next_ref (S (next_ref s)) s)
        | None => (Ok (Plain o), s)
        end
    | ANull =>
        match model s with
        | Some cfg =>
            (try m <- Model.construct GUID (next_ref s) cfg None ;;
             Ok (Entity m),
             with_next_ref (S (next_ref s)) s)
        | None => (Throw "TypeError: Cannot read property 'hasOwnProperty' of null", s)
        end
    end.

(** [add(data, suppressEvent)]; [None] is [undefined].  [listen]
    subscribes to the record's events, which a plain object does not
    have.  The back reference [_store] that [add] sets on the record is
    not kept. *)
Definition add (data : arg) (suppressEvent : bool) : M t (option Model.t) :=
  record <- resolve data ;;
  dupe <- (fun s => (isDuplicate s record, s)) ;;
  proceed <-
    (if dupe then
       emit (RecordDuplicate record) ;;;
       (fun s =>
          if negb (allowDuplicates s) then
            if errorOnDuplicate s
            then (Throw "Cannot add duplicate record (allowDuplicates = false).", s)
            else (Ok false, s)
          else (Ok true, s))
     else ret true) ;;
  if proceed then
    match record with
    | Plain _ => throw "TypeError: record.on is not a function"
    | Entity m =>
        modify (fun s =>
          with_index (applyIndices m (Z.of_nat (List.length (_data s))) (_index s)) s) ;;;
        modify (fun s => with_data (_data s ++ [m]) s) ;;;
        modify (fun s =>
          if negb (_loading s)
             && match position m (_created s) with None => true | Some _ => false end
          then with_created (_created s ++ [m]) s else s) ;;;
        (if suppressEvent then ret tt else emit (RecordCreate m)) ;;;
        ret (Some m)
    end
  else ret None.

(** [bulk(event, data)] *)
Definition bulk (e : event) (data : list arg) : M t unit :=
  modify (with_loading true) ;;;
  for_each (fun record => add record true ;;; ret tt) data ;;;
  modify (with_loading false) ;;;
  modify (with_deleted []) ;;;
  modify (with_created []) ;;;
  emit e.

(** [load(array)] *)
Definition load (array : list arg) : M t unit := bulk Load array.

(** [clear()] *)
Definition clear : M t unit :=
  modify (with_data []) ;;;
  modify (fun s => with_index (clearIndices (_index s)) s) ;;;
  emit Clear.

(** [reload(array)] *)
Definition reload (array : list arg) : M t unit := clear ;;; bulk Reload array.

(** [new this.model(data, true)] in [remove]. *)
Definition transient (o : obj) : M t Model.t :=
  fun s =>
    match model s with
    | Some cfg =>
        (Model.construct GUID (next_ref s) cfg (Some o),
         with_next_ref (S (next_ref s)) s)
    | None => (Throw "TypeError: this.model is not a constructor", s)
    end.

(** The position [remove] works out for its argument.  The test
    [data.checksum] is falsy for a checksum of 0: the record is then
    read as a plain map of its fields, like an object without
    checksum. *)
Definition dataIndex (data : target) : M t Z :=
  match data with
  | TIndex n => ret n
  | TEntity m =>
      c <- lift (Model.checksum m) ;;
      if negb (c =? 0) then s <- gets (fun s => s) ;; lift (indexOf s (Entity m))
      else
        m' <- transient (Model.raw m ++ Model.own m) ;;
        c' <- lift (Model.checksum m') ;;
        s <- gets (fun s => s) ;;
        lift (findIndex (VNum c') (_data s) 0)
  | TObject o =>
      if truthy (get "checksum" o)
      then s <- gets (fun s => s) ;; lift (indexOf s (Plain o))
      else
        m <- transient o ;;
        c <- lift (Model.checksum m) ;;
        s <- gets (fun s => s) ;;
        lift (findIndex (VNum c) (_data s) 0)
  end.

(** [remove(data, suppressEvents)]; [None] is [null]. *)
Definition remove (data : target) (suppressEvents : bool) : M t (option Model.t) :=
  i <- dataIndex data ;;
  if i <? 0 then
    throw ("Record removal failed (record not found at index "
             ++ string_of_Z i ++ ").")%string
  else
    removed <- (fun s =>
                  let '(removed, remaining) := splice (_data s) i 1 in
                  (Ok removed, with_data remaining s)) ;;
    match removed with
    | removedRecord :: _ =>
        modify (fun s => with_index (unapplyIndices i (_index s)) s) ;;;
        modify (fun s =>
          if negb (_loading s) then
            match position removedRecord (_created s) with
            | Some k =>
                with_created (firstn k (_created s) ++ skipn (S k) (_created s)) s
            | None =>
                match position removedRecord (_deleted s) with
                | None => with_deleted (_deleted s ++ [removedRecord]) s
                | Some _ => s
                end
            end
          else s) ;;;
        (if suppressEvents then ret tt else emit (RecordDelete removedRecord)) ;;;
        ret (Some removedRecord)
    | [] => ret None
    end.

(** The test of the final [filter] of an object query, and of its
    scan of the fields without index: every listed key of the record
    is [===] to the query's. *)
Definition agrees (q : obj) (ks : list string) (record : Model.t) : bool :=
  forallb (fun k => strict_eq (get k q) (Model.prop record k)) ks.

(** The first loop of an object query: [getIndices] for every key;
    the positions found are concatenated in [match], the keys without
    index collected in [noindex]. *)
Fixpoint consult (q : obj) (ks : list string) (found : list value)
  (noindex : list string) : M t (list value * list string) :=
  match ks with
  | [] => ret (found, noindex)
  | field :: rest =>
      index <- getIndices field (get field q) ;;
      match index with
      | Some positions => consult q rest (found ++ positions) noindex
      | None => consult q rest found (noindex ++ [field])
      end
  end.

(** [array.filter(f)] with the position of each element. *)
Fixpoint filter_i {A : Type} (f : A -> Z -> bool) (l : list A) (i : Z) : list A :=
  match l with
  | [] => []
  | x :: rest =>
      if f x i then x :: filter_i f rest (i + 1) else filter_i f rest (i + 1)
  end.

(** The final [filter] of an object query.  An [undefined] element,
    left by a position beyond the records, has no properties to read. *)
Fixpoint keep_agreeing (q : obj) (ks : list string) (l : list (option Model.t))
  : result (list (option Model.t)) :=
  match l with
  | [] => Ok []
  | Some record :: rest =>
      try kept <- keep_agreeing q ks rest ;;
      Ok (if agrees q ks record then Some record :: kept else kept)
  | None :: rest =>
      match ks with
      | [] => try kept <- keep_agreeing q ks rest ;; Ok (None :: kept)
      | _ :: _ => Throw "TypeError: Cannot read property of undefined"
      end
  end.

(** [find(query, ignoreFilters)].  The filters are applied to a copy of
    the result that is then dropped, so they do not show here. *)
Definition find (q : query) : M t found :=
  fun s =>
    match _data s with
    | [] => (Ok (Many []), s)
    | first :: _ =>
        match q with
        | QFunction f => (Ok (Many (map Some (filter f (_data s)))), s)
        | QNumber n =>
            (Ok (if (n <? 0) || (Z.of_nat (List.length (_data s)) <=? n) then Null
                 else match nth_error (_data s) (Z.to_nat n) with
                      | Some m => One m
                      | None => Null
                      end), s)
        | QString text =>
            (indice <- getIndices (Model.idAttribute first) (VStr (trim text)) ;;
             match indice with
             | Some (p :: ps) =>
                 s' <- gets (fun s' => s') ;;
                 ret (Many (map (data_at s') (p :: ps)))
             | _ =>
                 recordSet <- gets (fun s' =>
                   filter (fun record =>
                             String.eqb
                               (trim (to_string
                                        (or_else (Model.prop record (Model.idAttribute record))
                                           (VStr EmptyString))))
                               (trim text))
                          (_data s')) ;;
                 ret (match recordSet with
                      | [] => Null
                      | r :: _ => One r
                      end)
             end) s
        | QNull => (Throw "TypeError: Cannot convert undefined or null to object", s)
        | QObject o =>
            (consulted <- consult o (keys o) [] [] ;;
             let '(found, noindex) := consulted in
             s' <- gets (fun s' => s') ;;
             let resultSet :=
               match noindex with
               | [] => []
               | _ :: _ =>
                   filter_i
                     (fun record i =>
                        negb (existsb (strict_eq (VNum i)) found)
                        && agrees o noindex record)
                     (_data s') 0
               end in
             kept <- lift (keep_agreeing o (keys o)
                             (map Some resultSet ++ map (data_at s') found)) ;;
             ret (Many kept)) s
        | QNone => (Ok (Many (map Some (_data s))), s)
        end
    end.

(** What a sort map gives for a key: a direction text, or a comparator. *)
Inductive order : Type :=
| Direction (text : string)
| Comparator (f : Model.t -> Model.t -> Z).

Inductive sorter : Type :=
| SortWith (f : Model.t -> Model.t -> Z)
| SortBy (fn : list (string * order)).

(** The number a value converts to inside [<], [None] for [NaN]. *)
Definition number_of (v : value) : option Z :=
  match v with
  | VUndef => None
  | VNull => Some 0
  | VBool b => Some (if b then 1 else 0)
  | VNum n => Some n
  | VStr s => StringToNumber s
  end.

(** [a < b] *)
Definition lt (a b : value) : bool :=
  match a, b with
  | VStr x, VStr y => String.ltb x y
  | _, _ =>
      match number_of a, number_of b with
      | Some x, Some y => x <? y
      | _, _ => false
      end
  end.

(** The comparator [sort] builds from a sort map. *)
Fixpoint compare (fn : list (string * order)) (a b : Model.t) : result Z :=
  match fn with
  | [] => Ok 0
  | (key, o) :: rest =>
      if Model.hasOwnProperty a key && negb (Model.hasOwnProperty b key) then Ok 1
      else if negb (Model.hasOwnProperty a key) && Model.hasOwnProperty b key
      then Ok (-1)
      else if negb (strict_eq (Model.prop a key) (Model.prop b key)) then
        match o with
        | Direction text =>
            let dir := toLowerCase (trim text) in
            if String.eqb dir "asc" then
              match Model.prop a key with
              | VStr x => Ok (localeCompare x (to_string (Model.prop b key)))
              | _ => Throw "TypeError: localeCompare is not a function"
              end
            else if String.eqb dir "desc" then
              Ok (if lt (Model.prop a key) (Model.prop b key) then 1 else -1)
            else Ok 0
        | Comparator f => Ok (f a b)
        end
      else compare rest a b
  end.

(** [Array.prototype.sort(cmp)] of the host, as a stable insertion
    sort: an element goes behind every element it does not compare
    below. *)
Fixpoint insert (cmp : Model.t -> Model.t -> result Z) (x : Model.t)
  (sorted : list Model.t) : result (list Model.t) :=
  match sorted with
  | [] => Ok [x]
  | y :: rest =>
      try c <- cmp x y ;;
      if c <? 0 then Ok (x :: y :: rest)
      else try rest' <- insert cmp x rest ;; Ok (y :: rest')
  end.

Fixpoint sort_array (cmp : Model.t -> Model.t -> result Z) (l : list Model.t)
  : result (list Model.t) :=
  match l with
  | [] => Ok []
  | x :: rest =>
      try sorted <- sort_array cmp rest ;;
      insert cmp x sorted
  end.

(** [sort(fn)].  A comparator function sorts [this.records], which is
    [_data] itself only when the store has no filter.  When the
    comparator throws, the records are taken as they were before the
    call. *)
Definition sort (fn : sorter) : M t unit :=
  (fun s =>
     match fn with
     | SortWith f =>
         match _filters s with
         | [] =>
             match sort_array (fun a b => Ok (f a b)) (_data s) with
             | Ok sorted => (Ok tt, with_data sorted s)
             | Throw e => (Throw e, s)
             end
         | _ :: _ => (Ok tt, s)
         end
     | SortBy keys =>
         match sort_array (compare keys) (_data s) with
         | Ok sorted => (Ok tt, with_data sorted s)
         | Throw e => (Throw e, s)
         end
     end) ;;;
  reindex.

(** [array.filter(f)] for an [f] that can throw. *)
Fixpoint filter_result {A : Type} (f : A -> result bool) (l : list A)
  : result (list A) :=
  match l with
  | [] => Ok []
  | x :: rest =>
      try keep <- f x ;;
      try kept <- filter_result f rest ;;
      Ok (if keep then x :: kept else kept)
  end.

(** [get filtered] *)
Definition filtered (s : t) : result (list Model.t) :=
  let records := records s in
  filter_result
    (fun record =>
       try same <-
         map_result
           (fun rec =>
              try c <- Model.checksum rec ;;
              try c' <- Model.checksum record ;;
              Ok (strict_eq (VNum c) (VNum c')))
           records ;;
       Ok (Z.of_nat (List.length (filter (fun b => b) same)) =? 0))
    (_data s).

(** [a.indexOf(x)] on an array of texts, [-1] when [x] is not there. *)
Fixpoint text_index (x : string) (a : list string) (i : Z) : Z :=
  match a with
  | [] => -1
  | y :: rest => if String.eqb y x then i else text_index x rest (i + 1)
  end.

(** The first loop of [deduplicate]: the positions whose text occurs
    at an earlier position. *)
Fixpoint later_copies (all rest : list string) (i : Z) : list Z :=
  match rest with
  | [] => []
  | record :: rest' =>
      if text_index record all 0 <? i then i :: later_copies all rest' (i + 1)
      else later_copies all rest' (i + 1)
  end.

(** [dupes.push(me.find(i))] for each position of the first loop. *)
Fixpoint find_each (positions : list Z) : M t (list found) :=
  match positions with
  | [] => ret []
  | i :: rest =>
      duplicate <- find (QNumber i) ;;
      duplicates <- find_each rest ;;
      ret (duplicate :: duplicates)
  end.

(** [deduplicate(suppressEvents)].  The argument is coalesced and then
    not passed on: [remove] runs with its own default.  The positions
    of the first loop are positions of records, where [find] returns
    the record; its other results do not occur. *)
Definition deduplicate : M t unit :=
  data <- (fun s => (data s, s)) ;;
  let records := map JSON_stringify data in
  dupes <- find_each (later_copies records records 0) ;;
  for_each
    (fun duplicate =>
       match duplicate with
       | One m => remove (TEntity m) false ;;; ret tt
       | Null | Many _ => throw "deduplicate: no record at a position of the records"
       end)
    dupes.

End Host.

(** The event of [createIndex]; the [store] of its payload is the
    receiver. *)
Inductive index_event : Type :=
| IndexCreated (field : string).

(** [createIndex(field, suppressEvents)].  The log of the store has no
    place for the event, so the events emitted are what the model
    returns.  [this.model.hasOwnProperty(field)] is read for a warning;
    without a model, [this.model] is [null]. *)
Definition createIndex (field : string) (suppressEvents : bool)
  : M t (list index_event) :=
  fun s =>
    match model s with
    | None => (Throw "TypeError: Cannot read property 'hasOwnProperty' of null", s)
    | Some _ =>
        let exists_ := has field (_index s) in
        let values := match lookup field (_index s) with
                      | Some values => values
                      | None => []
                      end in
        (Ok (if negb suppressEvents && negb exists_ then [IndexCreated field] else []),
         with_index (set field values (_index s)) s)
    end.

End Store.

(* ================================================================== *)
(** ** NGN core helpers *)
(* ================================================================== *)

Module NGN.
Import JS.

(** [NGN.coalesce(...args)] *)
Fixpoint coalesce (args : list value) : value :=
  match args with
  | [] => VNull
  | arg :: rest =>
      if negb (strict_eq arg VUndef) && negb (strict_eq arg VNull) then arg
      else coalesce rest
  end.

(** [array.indexOf(element)], [-1] when the element is not there. *)
Fixpoint indexOf (element : value) (array : list value) (i : Z) : Z :=
  match array with
  | [] => -1
  | x :: rest => if strict_eq x element then i else indexOf element rest (i + 1)
  end.

(** The [filter] of [dedupe] over the elements from position [i]. *)
Fixpoint dedupe_from (array rest : list value) (i : Z) : list value :=
  match rest with
  | [] => []
  | element :: rest' =>
      if indexOf element array 0 =? i then element :: dedupe_from array rest' (i + 1)
      else dedupe_from array rest' (i + 1)
  end.

(** [NGN.dedupe(array)], for an array of primitives.  The values of
    the model have no [NaN], which [indexOf] never finds. *)
Definition dedupe (array : list value) : list value := dedupe_from array array 0.

End NGN.

(* ================================================================== *)
(** ** Vocabulary of the specification, and sample data *)
(* ================================================================== *)

Import JS.



(** Two records do not differ under a sort key: both have the property
    or both lack it, and its values are [===]. *)
Definition agree_on (a b : Model.t) (key : string) : Prop :=
  Model.hasOwnProperty a key = Model.hasOwnProperty b key
  /\ strict_eq (Model.prop a key) (Model.prop b key) = true.

(** [m'] has the content of [m]: all that [data], and with it
    [checksum], reads of an instance. *)
Definition same_content (m m' : Model.t) : Prop :=
  Model.raw m' = Model.raw m
  /\ Model.fields m' = Model.fields m
  /\ Model.idAttribute m' = Model.idAttribute m
  /\ Model.autoid m' = Model.autoid m
  /\ Model.oid m' = Model.oid m
  /\ Model.own m' = Model.own m
  /\ Model.dataMap m' = Model.dataMap m.

(** The names [addField] passes over: [id] in any case. *)
Definition is_id (name : string) : bool := String.eqb (toLowerCase name) "id".

(** The fields of a schema, with the [id] the constructor supplies. *)
Definition schema_fields (cfg : Model.config) : list (string * Model.field_decl) :=
  let fs := match Model.cfg_fields cfg with
            | Some fs => fs
            | None => [("id", Model.id_field cfg)]
            end in
  if has "id" fs then fs else fs ++ [("id", Model.id_field cfg)].

Definition schema_idAttribute (cfg : Model.config) : string :=
  match Model.cfg_idAttribute cfg with
  | Some s => if String.eqb s EmptyString then "id" else s
  | None => "id"
  end.

Definition schema_autoid (cfg : Model.config) : bool :=
  match Model.cfg_autoid cfg with Some b => b | None => false end.

(** The names of the fields that get an accessor, and a slot in [raw]. *)
Definition schema_accessors (cfg : Model.config) : list string :=
  filter (fun k => negb (is_id k)) (keys (schema_fields cfg)).

(** A schema that can be instantiated and serialised: it has no
    [dataMap]; its field names are distinct; every field other than
    [id] has a name [serialize] accepts and a configuration whose type
    [addField] can work out. *)
Definition serialisable_schema (cfg : Model.config) : Prop :=
  Model.cfg_dataMap cfg = None
  /\ NoDup (keys (schema_fields cfg))
  /\ Forall (fun kd =>
               is_id (fst kd) = false ->
               Model.key_start_ok (fst kd) = true
               /\ exists ty,
                    Model.infer_type
                      (match Model.declared (snd kd) with
                       | Some c => c
                       | None => Model.mkField None None None []
                       end) = Ok ty)
            (schema_fields cfg).

(** An instance of the schema: it has the fields, the accessors and the
    settings of the schema, and no property beside them. *)
Definition conforms (cfg : Model.config) (m : Model.t) : Prop :=
  keys (Model.fields m) = keys (schema_fields cfg)
  /\ keys (Model.raw m) = schema_accessors cfg
  /\ Model.idAttribute m = schema_idAttribute cfg
  /\ Model.autoid m = schema_autoid cfg
  /\ Model.dataMap m = Model.cfg_dataMap cfg
  /\ Model.own m = [].

(** The values [load] writes into the slots. *)
Definition write_slots (d : obj) (ks : list string) (r : obj) : obj :=
  fold_left (fun r k => set k (get k d) r) ks r.

(** The positions, counted from [i], of the records of [l] that have
    the property [f] of their own with a value [===] to [v]: what a
    bucket for [v] should hold. *)
Fixpoint positions_from (f : string) (v : value) (l : list Model.t) (i : Z)
  : list value :=
  match l with
  | [] => []
  | r :: rest =>
      if Model.hasOwnProperty r f && strict_eq (Model.prop r f) v
      then VNum i :: positions_from f v rest (i + 1)
      else positions_from f v rest (i + 1)
  end.

(** The buckets for [v] that an index of [f] over the records [l]
    should have: none, or the one with the positions. *)
Definition bucket_for (f : string) (v : value) (l : list Model.t)
  : list Store.bucket :=
  match positions_from f v l 0 with
  | [] => []
  | ps => [v :: ps]
  end.

(** The buckets [values] index the field [f] of the records [l]. *)
Definition indexes (f : string) (l : list Model.t) (values : list Store.bucket)
  : Prop :=
  Forall (fun b => b <> []) values
  /\ forall v, filter (Store.bucket_matches v) values = bucket_for f v l.

(** The index of a store is in step with its records. *)
Definition index_in_step (s : Store.t) : Prop :=
  forall f values,
    lookup f (Store._index s) = Some values -> indexes f (Store._data s) values.

(** The record passes every filter of the store. *)
Definition passes (s : Store.t) (r : Model.t) : bool :=
  forallb (fun f => f r) (Store._filters s).

Module Sample.

(** A generator, a collation and a number parser to run examples on. *)
Definition GUID (ref n : nat) : string :=
  ("guid-" ++ string_of_Z (Z.of_nat ref) ++ "-" ++ string_of_Z (Z.of_nat n))%string.

Definition localeCompare (a b : string) : Z :=
  match String.compare a b with
  | Lt => -1
  | Eq => 0
  | Gt => 1
  end.

Definition StringToNumber (s : string) : option Z := None.

(** The state a method leaves behind. *)
Definition after {S A : Type} (m : M S A) (s : S) : S := snd (m s).

(** [fields: { name: null, age: null }] *)
Definition person : Model.config :=
  Model.mkConfig None (Some [("name", Model.FNull); ("age", Model.FNull)])
    None None VUndef.

Definition blank : Model.t :=
  Model.mkModel 0 "id" false VNull [] [] [] [] [] [] VNull None 0 [].

(** [new Person(data)] allocated at [ref]. *)
Definition instance (ref : nat) (data : obj) : Model.t :=
  match Model.construct GUID ref person (Some data) with
  | Ok m => m
  | Throw _ => blank
  end.

(** [new Person()], never loaded. *)
Definition unloaded (ref : nat) : Model.t :=
  match Model.construct GUID ref person None with
  | Ok m => m
  | Throw _ => blank
  end.

Definition doe : Model.t :=
  Eval vm_compute in instance 101 [("name", VStr "Doe"); ("age", VNum 37)].

Definition doe_twin : Model.t :=
  Eval vm_compute in instance 102 [("name", VStr "Doe"); ("age", VNum 37)].

Definition vaughn : Model.t :=
  Eval vm_compute in instance 103 [("name", VStr "Vaughn"); ("age", VNum 42)].


Definition newborn_a : Model.t :=
  Eval vm_compute in instance 111 [("name", VStr "a"); ("age", VNum 0)].

Definition newborn_b : Model.t :=
  Eval vm_compute in instance 112 [("name", VStr "b"); ("age", VNum 0)].

(** A store of persons indexed by [name] and [age], holding two
    records of age 0. *)
Definition indexed_people : Store.t :=
  Eval vm_compute in
    after (Store.add GUID (Store.AEntity newborn_b) false)
      (after (Store.add GUID (Store.AEntity newborn_a) false)
         (Store.create 0
            (Store.mkConfig (Some person) (Some ["name"; "age"]) None None))).

(** [fields: { name: null }]: a schema without [age]. *)
Definition nameOnly : Model.config :=
  Model.mkConfig None (Some [("name", Model.FNull)]) None None VUndef.

Definition ageless : Model.t :=
  Eval vm_compute in
    match Model.construct GUID 121 nameOnly (Some [("name", VStr "Doe")]) with
    | Ok m => m
    | Throw _ => blank
    end.

(** A store without filter or index holding [doe], who has an [age],
    and then [ageless], who has none. *)
Definition mixed_people : Store.t :=
  Eval vm_compute in
    after (Store.add GUID (Store.AEntity ageless) false)
      (after (Store.add GUID (Store.AEntity doe) false)
         (Store.create 0 (Store.mkConfig (Some person) None None None))).

(** [doe] after [doe.name = 'Roe'] and then [doe.name = 'Poe']. *)
Definition edited_twice : Model.t :=
  Eval vm_compute in
    after (Model.assign "name" (VStr "Poe"))
      (after (Model.assign "name" (VStr "Roe")) doe).

(** [new Person()]: an instance that was never loaded. *)
Definition fresh : Model.t := Eval vm_compute in unloaded 131.

(** A store of persons with the default settings, holding [doe] and
    [vaughn]. *)
Definition people : Store.t :=
  Eval vm_compute in
    after (Store.add GUID (Store.AEntity vaughn) false)
      (after (Store.add GUID (Store.AEntity doe) false)
         (Store.create 0 (Store.mkConfig (Some person) None None None))).

(** A store of persons with the default settings, which allow
    duplicates, holding [doe] and a second record with the same data. *)
Definition twins : Store.t :=
  Eval vm_compute in
    after (Store.add GUID (Store.AEntity doe_twin) false)
      (after (Store.add GUID (Store.AEntity doe) false)
         (Store.create 0 (Store.mkConfig (Some person) None None None))).

(** [fields: { a: null, b: null }, dataMap: { a: 'b', b: 'a' }] *)
Definition swapped : Model.config :=
  Model.mkConfig None (Some [("a", Model.FNull); ("b", Model.FNull)])
    None (Some [("a", "b"); ("b", "a")]) VUndef.

(** An instance of [swapped] after [m.a = 1] and [m.b = 2]. *)
Definition one_two : Model.t :=
  Eval vm_compute in
    after (Model.assign "b" (VNum 2))
      (after (Model.assign "a" (VNum 1))
         (match Model.construct GUID 141 swapped None with
          | Ok m => m
          | Throw _ => blank
          end)).

(** [fields: { Name: null }]: a name [serialize] does not accept. *)
Definition capital : Model.config :=
  Model.mkConfig None (Some [("Name", Model.FNull)]) None None VUndef.

(** An instance of [capital] after [m.Name = undefined]. *)
Definition unnamed : Model.t :=
  Eval vm_compute in
    after (Model.assign "Name" VUndef)
      (match Model.construct GUID 151 capital None with
       | Ok m => m
       | Throw _ => blank
       end).

(** A store of persons that drops duplicates without an error, holding
    one record. *)
Definition lenient_people : Store.t :=
  Eval vm_compute in
    after (Store.add GUID (Store.AEntity doe) false)
      (Store.create 0
         (Store.mkConfig (Some person) None (Some false) (Some false))).

(** The filter [record => record.name === 'Doe']. *)
Definition named_doe (record : Model.t) : bool :=
  strict_eq (Model.prop record "name") (VStr "Doe").

(** [people] seen through the filter [named_doe]. *)
Definition doe_only : Store.t :=
  Store.mkStore (Store.model people) (Store._data people) [named_doe]
    (Store._index people) (Store._created people) (Store._deleted people)
    (Store._loading people) (Store.allowDuplicates people)
    (Store.errorOnDuplicate people) (Store.next_ref people) (Store.emitted people).

(** [doe] after [doe.removeField('age')]. *)
Definition doe_without_age : Model.t :=
  Eval vm_compute in after (Model.removeField "age") doe.

(** [new (NGN.DATA.Model({fields: {Name: null}}))()]: the field holds
    its default, [null]. *)
Definition titled : Model.t :=
  Eval vm_compute in
    match Model.construct GUID 161 capital None with
    | Ok m => m
    | Throw _ => blank
    end.

End Sample.

Example crc32_check_value : Util.checksum_of "123456789" = 3421780262.
Proof. vm_compute. reflexivity. Qed.

Example crc32_empty : Util.checksum_of EmptyString = 0.
Proof. vm_compute. reflexivity. Qed.

Lemma ushr_0_range (a : Z) : 0 <= JS.ushr a 0 < 2 ^ 32.
Proof.
  unfold JS.ushr, JS.ToUint32.
  change (0 mod 32) with 0. rewrite Z.shiftr_0_r.
  apply Z.mod_pos_bound. lia.
Qed.

(** C9. For every string (as its code units) [checksum] returns an
    integer in the range [0, 2^32); a repeated call with the same string,
    which then runs on the cached table, and a call made after any other
    call return the same value. *)
Theorem checksum_uint32_deterministic : forall (s prior : list Z),
  let '(v1, c1) := Util.checksum None s in
  let '(v2, _) := Util.checksum c1 s in
  let '(v3, _) := Util.checksum (snd (Util.checksum None prior)) s in
  0 <= v1 < 2 ^ 32 /\ v2 = v1 /\ v3 = v1.
Proof.
  intros s prior. unfold Util.checksum. cbn [snd].
  split; [apply ushr_0_range | split; reflexivity].
Qed.

Example stringify_sample :
  JS.JSON_stringify [("a", JS.VNum 1); ("u", JS.VUndef); ("b", JS.VStr "x"); ("c", JS.VNull)]
  = ("{" ++ JS.quote "a" ++ ":1," ++ JS.quote "b" ++ ":" ++ JS.quote "x"
       ++ "," ++ JS.quote "c" ++ ":null}")%string.
Proof. reflexivity. Qed.

(* ================================================================== *)
(** ** Duplicate detection *)
(* ================================================================== *)






(** The first block of [add] allocates at most an identity. *)
Lemma resolve_frame GUID (data : Store.arg) (s s1 : Store.t) (r : result Store.candidate) :
  Store.resolve GUID data s = (r, s1) ->
  s1 = s \/ s1 = Store.with_next_ref (S (Store.next_ref s)) s.
Proof.
  unfold Store.resolve. intros H.
  destruct data as [m|o| |]; [| destruct (Store.model s) | destruct (Store.model s) |];
    injection H as _ <-; auto.
Qed.



(* ================================================================== *)
(** ** Index lookup *)
(* ================================================================== *)

Lemma lookup_set_same {A : Type} (k : string) (v : A) (o : list (string * A)) :
  lookup k (set k v o) = Some v.
Proof.
  induction o as [|[k' v'] o IH]; cbn.
  - rewrite String.eqb_refl. reflexivity.
  - destruct (String.eqb k k') eqn:E; cbn.
    + rewrite String.eqb_refl. reflexivity.
    + rewrite E. exact IH.
Qed.

(** When exactly one bucket matches, [shift_match] rewrites that bucket
    and no other. *)
Lemma shift_match_unique (v : value) (values : list Store.bucket) (b : Store.bucket) :
  filter (Store.bucket_matches v) values = [b] ->
  exists pre post,
    values = pre ++ b :: post
    /\ Store.shift_match v values = pre ++ tl b :: post
    /\ filter (Store.bucket_matches v) pre = []
    /\ filter (Store.bucket_matches v) post = [].
Proof.
  induction values as [|x rest IH]; cbn; [discriminate|].
  destruct (Store.bucket_matches v x) eqn:E.
  - intros H. injection H as -> Hrest.
    exists [], rest. cbn. repeat split; assumption.
  - intros H. destruct (IH H) as (pre & post & -> & Hshift & Hpre & Hpost).
    exists (x :: pre), post. cbn. rewrite E, Hshift. repeat split; assumption.
Qed.

Lemma bucket_matches_head (v : value) (b : Store.bucket) :
  Store.bucket_matches v b = true -> b = v :: tl b.
Proof.
  destruct b as [|h t]; cbn; [discriminate|].
  unfold strict_eq. destruct (value_eq_dec h v) as [-> | _]; [reflexivity | discriminate].
Qed.

Lemma filter_singleton_in {A : Type} (p : A -> bool) (l : list A) (x : A) :
  filter p l = [x] -> p x = true.
Proof.
  intros H. assert (Hin : In x (filter p l)) by (rewrite H; left; reflexivity).
  apply filter_In in Hin. apply Hin.
Qed.

(** C10, as amended.  When exactly one bucket of the index of [f]
    matches [v], [getIndices(f, v)] returns the positions of that bucket
    and leaves the bucket, in the index, without its leading value; the
    records are untouched.  If the positions left do not themselves start
    with an entry [===] to [v], the same call made again returns an empty
    array, and so does the object query [find({f: v})]. *)
Theorem getIndices_shifts_bucket :
  forall (s : Store.t) (f : string) (v : value)
         (values : list Store.bucket) (b : Store.bucket),
    lookup f (Store._index s) = Some values ->
    filter (Store.bucket_matches v) values = [b] ->
    exists pre post s1,
      values = pre ++ b :: post
      /\ b = v :: tl b
      /\ Store.getIndices f v s = (Ok (Some (tl b)), s1)
      /\ lookup f (Store._index s1) = Some (pre ++ tl b :: post)
      /\ Store._data s1 = Store._data s
      /\ (Store.bucket_matches v (tl b) = false ->
          fst (Store.getIndices f v s1) = Ok (Some [])
          /\ fst (Store.find (Store.QObject [(f, v)]) s1) = Ok (Store.Many [])).
Proof.
  intros s f v values b Hidx Hone.
  destruct (shift_match_unique v values b Hone) as (pre & post & Hv & Hshift & Hpre & Hpost).
  exists pre, post. eexists.
  split; [exact Hv|].
  split; [apply bucket_matches_head; eapply filter_singleton_in; exact Hone|].
  unfold Store.getIndices at 1. rewrite Hidx, Hone.
  split; [reflexivity|].
  assert (Hlook : lookup f (Store._index
                    (Store.with_index (set f (Store.shift_match v values) (Store._index s)) s))
                  = Some (pre ++ tl b :: post)).
  { cbn. rewrite lookup_set_same, Hshift. reflexivity. }
  split; [exact Hlook|].
  split; [reflexivity|].
  intros Hrest.
  assert (Hagain : forall s', lookup f (Store._index s') = Some (pre ++ tl b :: post) ->
                              Store.getIndices f v s' = (Ok (Some []), s')).
  { intros s' Hs'. unfold Store.getIndices. rewrite Hs'.
    rewrite filter_app. cbn [filter]. rewrite Hpre, Hrest, Hpost. reflexivity. }
  split.
  - rewrite (Hagain _ Hlook). reflexivity.
  - unfold Store.find.
    destruct (Store._data _) as [|first rest]; [reflexivity|].
    cbn [keys map fst Store.consult]. unfold JS.mbind at 1. unfold JS.mbind at 1.
    unfold get at 1. cbn [lookup]. rewrite String.eqb_refl.
    rewrite (Hagain _ Hlook). reflexivity.
Qed.

Lemma getIndices_shifts_bucket_witness :
  exists pre post s1,
    [[VStr "a"; VNum 0]; [VStr "b"; VNum 1]] = pre ++ [VStr "b"; VNum 1] :: post
    /\ [VStr "b"; VNum 1] = VStr "b" :: tl [VStr "b"; VNum 1]
    /\ Store.getIndices "name" (VStr "b") Sample.indexed_people
       = (Ok (Some (tl [VStr "b"; VNum 1])), s1)
    /\ lookup "name" (Store._index s1) = Some (pre ++ tl [VStr "b"; VNum 1] :: post)
    /\ Store._data s1 = Store._data Sample.indexed_people
    /\ (Store.bucket_matches (VStr "b") (tl [VStr "b"; VNum 1]) = false ->
        fst (Store.getIndices "name" (VStr "b") s1) = Ok (Some [])
        /\ fst (Store.find (Store.QObject [("name", VStr "b")]) s1) = Ok (Store.Many [])).
Proof.
  apply (getIndices_shifts_bucket Sample.indexed_people "name" (VStr "b")
           [[VStr "a"; VNum 0]; [VStr "b"; VNum 1]] [VStr "b"; VNum 1]).
  - reflexivity.
  - reflexivity.
Defined.

(** C10 as stated fails: in a store indexed by [age] whose two
    records both have age 0, exactly one bucket matches 0, and the
    repeated [getIndices('age', 0)] returns the position 1, not an empty
    array; the repeated [find({age: 0})] returns the second record. *)
Lemma getIndices_repeat_not_empty :
  lookup "age" (Store._index Sample.indexed_people) = Some [[VNum 0; VNum 0; VNum 1]]
  /\ filter (Store.bucket_matches (VNum 0)) [[VNum 0; VNum 0; VNum 1]]
     = [[VNum 0; VNum 0; VNum 1]]
  /\ fst (Store.getIndices "age" (VNum 0) Sample.indexed_people)
     = Ok (Some [VNum 0; VNum 1])
  /\ fst (Store.getIndices "age" (VNum 0)
            (Sample.after (Store.getIndices "age" (VNum 0)) Sample.indexed_people))
     = Ok (Some [VNum 1])
  /\ fst (Store.getIndices "age" (VNum 0)
            (Sample.after (Store.getIndices "age" (VNum 0)) Sample.indexed_people))
     <> Ok (Some [])
  /\ fst (Store.find (Store.QObject [("age", VNum 0)])
            (Sample.after (Store.find (Store.QObject [("age", VNum 0)]))
               Sample.indexed_people))
     = Ok (Store.Many [Some Sample.newborn_b]).
Proof. repeat split. discriminate. Qed.

(** C3 at a failing input.  In a store indexed by [name] that holds
    one record named 'a', the first [find({name: 'a'})] returns that
    record; the same query made again returns nothing, while the scan
    [find(record => record.name === 'a')] still returns the record. *)
Theorem find_indexed_differs_from_scan :
  let q := Store.QObject [("name", VStr "a")] in
  let scan :=
    Store.QFunction (fun record => strict_eq (Model.prop record "name") (VStr "a")) in
  let s1 := Sample.after (Store.find q) Sample.indexed_people in
  fst (Store.find q Sample.indexed_people) = Ok (Store.Many [Some Sample.newborn_a])
  /\ fst (Store.find scan s1) = Ok (Store.Many [Some Sample.newborn_a])
  /\ fst (Store.find q s1) = Ok (Store.Many []).
Proof. repeat split. Qed.

(* ================================================================== *)
(** ** Removal *)
(* ================================================================== *)

(** [unapplyIndices] changes no index: its search compares buckets
    with a number. *)
Lemma unapplyIndices_id (num : Z) (index : list (string * list Store.bucket)) :
  Store.unapplyIndices num index = index.
Proof.
  unfold Store.unapplyIndices.
  assert (H : forall vs i, Store.bucket_index_of num vs i = None).
  { induction vs as [|b vs IH]; intros i; cbn; [reflexivity | apply IH]. }
  induction index as [|fv index IH]; cbn [map]; [reflexivity|].
  rewrite H, IH. reflexivity.
Qed.

Lemma splice_one {A : Type} (l : list A) (n : nat) (x : A) :
  nth_error l n = Some x ->
  splice l (Z.of_nat n) 1 = ([x], firstn n l ++ skipn (S n) l).
Proof.
  intros Hn.
  assert (Hlt : (n < List.length l)%nat) by (apply nth_error_Some; congruence).
  unfold splice.
  assert (Hs : (Z.of_nat n <? 0) = false) by (apply Z.ltb_ge; lia).
  rewrite Hs.
  replace (Z.min (Z.of_nat n) (Z.of_nat (List.length l))) with (Z.of_nat n) by lia.
  replace (Z.min (Z.max 1 0) (Z.of_nat (List.length l) - Z.of_nat n)) with 1 by lia.
  replace (Z.to_nat (Z.of_nat n + 1)) with (S n) by lia.
  rewrite Nat2Z.id. change (Z.to_nat 1) with 1%nat.
  f_equal.
  apply nth_error_split in Hn. destruct Hn as (l1 & l2 & -> & <-).
  rewrite skipn_app, Nat.sub_diag, skipn_all. reflexivity.
Qed.

Lemma nth_error_after_removal {A : Type} (l : list A) (n : nat) :
  (n < List.length l)%nat ->
  nth_error (firstn n l ++ skipn (S n) l) n = nth_error l (S n).
Proof.
  intros Hlt.
  rewrite nth_error_app2 by (rewrite length_firstn; lia).
  rewrite length_firstn, Nat.min_l, Nat.sub_diag by lia.
  rewrite nth_error_skipn. f_equal. lia.
Qed.

(** C7 on the code.  In every store holding records at positions [i]
    and [i+1], [remove(i)] returns the record at [i] and [find(i)] then
    returns the record that was at [i+1]; but the index is exactly what it
    was before the removal: no recorded position has moved. *)
Theorem remove_leaves_index_positions :
  forall GUID (s : Store.t) (n : nat) (suppressEvents : bool) (r r' : Model.t),
    nth_error (Store._data s) n = Some r ->
    nth_error (Store._data s) (S n) = Some r' ->
    exists s1,
      Store.remove GUID (Store.TIndex (Z.of_nat n)) suppressEvents s = (Ok (Some r), s1)
      /\ fst (Store.find (Store.QNumber (Z.of_nat n)) s1) = Ok (Store.One r')
      /\ Store._index s1 = Store._index s.
Proof.
  intros GUID s n sup r r' Hr Hr'.
  assert (Hlt : (S n < List.length (Store._data s))%nat)
    by (apply nth_error_Some; congruence).
  assert (Hneg : (Z.of_nat n <? 0) = false) by (apply Z.ltb_ge; lia).
  assert (Hfind : forall s2,
            Store._data s2 = firstn n (Store._data s) ++ skipn (S n) (Store._data s) ->
            fst (Store.find (Store.QNumber (Z.of_nat n)) s2) = Ok (Store.One r')).
  { intros s2 H2. unfold Store.find. rewrite H2.
    destruct (firstn n (Store._data s) ++ skipn (S n) (Store._data s)) eqn:E.
    - apply (f_equal (@List.length _)) in E.
      rewrite length_app, length_firstn, length_skipn in E. cbn in E. lia.
    - rewrite <- E. cbn [fst]. rewrite Hneg. cbn [orb].
      assert (Hlen : (Z.of_nat (List.length (firstn n (Store._data s)
                        ++ skipn (S n) (Store._data s))) <=? Z.of_nat n) = false).
      { apply Z.leb_gt. rewrite length_app, length_firstn, length_skipn. lia. }
      rewrite Hlen, Nat2Z.id, nth_error_after_removal, Hr' by lia. reflexivity. }
  destruct sup; eexists; unfold Store.remove, Store.dataIndex;
    unfold JS.mbind at 1; unfold JS.ret at 1;
    rewrite Hneg; unfold JS.mbind at 1;
    rewrite (splice_one _ _ _ Hr);
    cbv [JS.mbind JS.modify JS.ret Store.emit];
    rewrite unapplyIndices_id;
    (split; [reflexivity|]); (split; [apply Hfind|]);
    cbn [Store._loading Store._created Store._deleted Store.with_index Store.with_data];
    destruct (Store._loading s); cbn [negb];
    try destruct (Store.position r (Store._created s));
    try destruct (Store.position r (Store._deleted s)); reflexivity.
Qed.

Lemma remove_leaves_index_positions_witness :
  exists s1,
    Store.remove Sample.GUID (Store.TIndex (Z.of_nat 0)) false Sample.indexed_people
    = (Ok (Some Sample.newborn_a), s1)
    /\ fst (Store.find (Store.QNumber (Z.of_nat 0)) s1) = Ok (Store.One Sample.newborn_b)
    /\ Store._index s1 = Store._index Sample.indexed_people.
Proof.
  apply (remove_leaves_index_positions Sample.GUID Sample.indexed_people 0 false
           Sample.newborn_a Sample.newborn_b); reflexivity.
Defined.

(** After [remove(0)] the record 'b' sits at position 0 while the index
    still records it at position 1: the indexed query for it reads past
    the records. *)
Example remove_then_indexed_find :
  let s1 := Sample.after (Store.remove Sample.GUID (Store.TIndex 0) false)
              Sample.indexed_people in
  Store._data s1 = [Sample.newborn_b]
  /\ lookup "name" (Store._index s1) = Some [[VStr "a"; VNum 0]; [VStr "b"; VNum 1]]
  /\ fst (Store.find (Store.QObject [("name", VStr "b")]) s1)
     = Throw "TypeError: Cannot read property of undefined".
Proof. repeat split. Qed.

(* ================================================================== *)
(** ** Sorting *)
(* ================================================================== *)

Lemma strict_eq_sym (a b : value) : strict_eq a b = strict_eq b a.
Proof.
  unfold strict_eq.
  destruct (value_eq_dec a b), (value_eq_dec b a); congruence.
Qed.

Lemma agree_on_sym (a b : Model.t) (key : string) :
  agree_on a b key -> agree_on b a key.
Proof.
  intros [H1 H2]. split; [symmetry; exact H1 | rewrite strict_eq_sym; exact H2].
Qed.

(** Keys under which the records agree are passed over. *)
Lemma compare_skips_agreeing lc s2n (pre rest : list (string * Store.order))
  (a b : Model.t) :
  (forall k o, In (k, o) pre -> agree_on a b k) ->
  Store.compare lc s2n (pre ++ rest) a b = Store.compare lc s2n rest a b.
Proof.
  induction pre as [|[k o] pre IH]; intros H; [reflexivity|].
  cbn [app Store.compare].
  destruct (H k o (or_introl eq_refl)) as [Hown Heq].
  rewrite Hown, Heq.
  destruct (Model.hasOwnProperty b k); cbn [negb andb];
    apply IH; intros k' o' Hin; apply (H k' o'); right; exact Hin.
Qed.

(** A key under which the records differ decides alone. *)
Lemma compare_decided_at lc s2n (key : string) (o : Store.order)
  (post : list (string * Store.order)) (a b : Model.t) :
  ~ agree_on a b key ->
  Store.compare lc s2n ((key, o) :: post) a b = Store.compare lc s2n [(key, o)] a b.
Proof.
  intros Hd. cbn [Store.compare].
  destruct (Model.hasOwnProperty a key) eqn:Ha, (Model.hasOwnProperty b key) eqn:Hb;
    cbn [negb andb]; try reflexivity;
    destruct (strict_eq (Model.prop a key) (Model.prop b key)) eqn:E;
    cbn [negb]; try reflexivity;
    exfalso; apply Hd; split; congruence.
Qed.

(** C6, as amended.  With a sort map the records are compared key by
    key in the order of the map, and the first key under which they
    differ decides alone.  When that key is a property one record has and
    the other lacks, the record that has it compares above: the record
    lacking the field is ordered first, before the record that has it. *)
Theorem compare_first_difference_decides :
  forall lc s2n (pre post : list (string * Store.order)) (key : string)
         (o : Store.order) (a b : Model.t),
    (forall k o', In (k, o') pre -> agree_on a b k) ->
    let fn := pre ++ (key, o) :: post in
    (~ agree_on a b key ->
     Store.compare lc s2n fn a b = Store.compare lc s2n [(key, o)] a b)
    /\ (Model.hasOwnProperty a key = true ->
        Model.hasOwnProperty b key = false ->
        Store.compare lc s2n fn a b = Ok 1
        /\ Store.compare lc s2n fn b a = Ok (-1)
        /\ Store.sort_array (Store.compare lc s2n fn) [a; b] = Ok [b; a]
        /\ Store.sort_array (Store.compare lc s2n fn) [b; a] = Ok [b; a]).
Proof.
  intros lc s2n pre post key o a b Hpre fn. subst fn.
  assert (Hpre' : forall k o', In (k, o') pre -> agree_on b a k)
    by (intros k o' Hin; apply agree_on_sym; eapply Hpre; exact Hin).
  split.
  - intros Hd. rewrite compare_skips_agreeing by exact Hpre.
    apply compare_decided_at. exact Hd.
  - intros Ha Hb.
    assert (Hab : Store.compare lc s2n (pre ++ (key, o) :: post) a b = Ok 1).
    { rewrite compare_skips_agreeing by exact Hpre.
      cbn [Store.compare]. rewrite Ha, Hb. reflexivity. }
    assert (Hba : Store.compare lc s2n (pre ++ (key, o) :: post) b a = Ok (-1)).
    { rewrite compare_skips_agreeing by exact Hpre'.
      cbn [Store.compare]. rewrite Ha, Hb. reflexivity. }
    repeat split; try assumption.
    + cbn [Store.sort_array Store.insert JS.bind]. rewrite Hab. reflexivity.
    + cbn [Store.sort_array Store.insert JS.bind]. rewrite Hba. reflexivity.
Qed.

Lemma compare_first_difference_decides_witness :
  let fn := [("name", Store.Direction "asc")]
              ++ ("age", Store.Direction "desc") :: [] in
  (~ agree_on Sample.doe Sample.ageless "age" ->
   Store.compare Sample.localeCompare Sample.StringToNumber fn Sample.doe Sample.ageless
   = Store.compare Sample.localeCompare Sample.StringToNumber
       [("age", Store.Direction "desc")] Sample.doe Sample.ageless)
  /\ (Model.hasOwnProperty Sample.doe "age" = true ->
      Model.hasOwnProperty Sample.ageless "age" = false ->
      Store.compare Sample.localeCompare Sample.StringToNumber fn Sample.doe Sample.ageless
      = Ok 1
      /\ Store.compare Sample.localeCompare Sample.StringToNumber fn Sample.ageless Sample.doe
         = Ok (-1)
      /\ Store.sort_array (Store.compare Sample.localeCompare Sample.StringToNumber fn)
           [Sample.doe; Sample.ageless] = Ok [Sample.ageless; Sample.doe]
      /\ Store.sort_array (Store.compare Sample.localeCompare Sample.StringToNumber fn)
           [Sample.ageless; Sample.doe] = Ok [Sample.ageless; Sample.doe]).
Proof.
  apply (compare_first_difference_decides Sample.localeCompare Sample.StringToNumber
           [("name", Store.Direction "asc")] [] "age" (Store.Direction "desc")
           Sample.doe Sample.ageless).
  intros k o' [H | []]. injection H as <- _. split; reflexivity.
Defined.

(** C6 as stated fails: sorting by [{age: 'asc'}] a store that holds
    a record with an [age] and then a record without one puts the record
    lacking the field first. *)
Lemma sort_puts_lacking_record_first :
  Store._data Sample.mixed_people = [Sample.doe; Sample.ageless]
  /\ Model.hasOwnProperty Sample.doe "age" = true
  /\ Model.hasOwnProperty Sample.ageless "age" = false
  /\ Store._data
       (Sample.after
          (Store.sort Sample.localeCompare Sample.StringToNumber
             (Store.SortBy [("age", Store.Direction "asc")]))
          Sample.mixed_people)
     = [Sample.ageless; Sample.doe].
Proof. repeat split. Qed.

(* ================================================================== *)
(** ** Change log and undo *)
(* ================================================================== *)

(** [get history] hands out the changelog array itself, reversed. *)
Lemma history_in_place (m : Model.t) :
  Model.history m
  = (Ok (rev (Model.changelog m)), Model.with_changelog (rev (Model.changelog m)) m).
Proof. reflexivity. Qed.

(** C8 at a failing input.  A record edited twice has the two updates
    in its changelog, oldest first.  The first read of [history] returns
    them newest first, and leaves the stored changelog in that order; the
    second read returns them oldest first.  [undo()] on the untouched
    record takes back the latest edit; after one read of [history] it
    takes back the oldest edit instead. *)
Theorem history_second_access_oldest_first :
  let c1 := Model.mkChange Model.Update "name" (VStr "Doe") (VStr "Roe") VUndef false in
  let c2 := Model.mkChange Model.Update "name" (VStr "Roe") (VStr "Poe") VUndef false in
  let m := Sample.edited_twice in
  let m1 := Sample.after Model.history m in
  Model.changelog m = [c1; c2]
  /\ fst (Model.history m) = Ok [c2; c1]
  /\ Model.changelog m1 = [c2; c1]
  /\ fst (Model.history m1) = Ok [c1; c2]
  /\ Model.prop (Sample.after (Model.undo Sample.GUID None) m) "name" = VStr "Roe"
  /\ Model.prop (Sample.after (Model.undo Sample.GUID None) m1) "name" = VStr "Doe".
Proof. repeat split. Qed.

Lemma lookup_has {A : Type} (k : string) (o : list (string * A)) (v : A) :
  lookup k o = Some v -> has k o = true.
Proof. unfold has. intros ->. reflexivity. Qed.

Lemma set_overwrite {A : Type} (k : string) (v w : A) (o : list (string * A)) :
  set k w (set k v o) = set k w o.
Proof.
  induction o as [|[k' v'] o IH]; cbn.
  - rewrite String.eqb_refl. reflexivity.
  - destruct (String.eqb k k') eqn:E; cbn.
    + rewrite String.eqb_refl. reflexivity.
    + rewrite E, IH. reflexivity.
Qed.


Lemma serialize_keys_content (m m' : Model.t) (ks : list string) (rtn : obj) :
  same_content m m' ->
  Model.serialize_keys m' ks rtn = Model.serialize_keys m ks rtn.
Proof.
  intros (Hraw & Hfields & Hid & _). revert rtn.
  induction ks as [|k ks IH]; intros rtn; cbn [Model.serialize_keys]; [reflexivity|].
  rewrite Hraw, Hfields, Hid.
  repeat match goal with
         | |- context [if ?c then _ else _] => destruct c
         end; try reflexivity; apply IH.
Qed.

(** The checksum is a function of the content. *)
Lemma checksum_content (m m' : Model.t) :
  same_content m m' -> Model.checksum m' = Model.checksum m.
Proof.
  intros H. pose proof (serialize_keys_content m m' (keys (Model.raw m)) [] H) as Hs.
  destruct H as (Hraw & Hfields & Hid & Hauto & Hoid & Hown & Hmap).
  unfold Model.checksum, Model.data, Model.serialize, Model.prop.
  rewrite Hraw, Hs, Hid, Hauto, Hoid, Hown, Hmap. reflexivity.
Qed.








(** The field [id] has no setter of its own: assigning it logs
    nothing, so [undo] has nothing to take back. *)
Example id_assignment_not_undone :
  let m1 := Sample.after (Model.assign "id" (VStr "x")) Sample.doe in
  let m2 := Sample.after (Model.undo Sample.GUID (Some 1)) m1 in
  has "id" (Model.fields Sample.doe) = true
  /\ Model.prop Sample.doe "id" = VNull
  /\ Model.changelog m1 = []
  /\ Model.prop m2 "id" = VStr "x".
Proof. repeat split. Qed.

(* ================================================================== *)
(** ** Bulk load of a store's data *)
(* ================================================================== *)

Lemma lookup_set_other {A : Type} (k k' : string) (v : A) (o : list (string * A)) :
  k <> k' -> lookup k' (set k v o) = lookup k' o.
Proof.
  intros Hne. induction o as [|[k0 v0] o IH]; cbn.
  - destruct (String.eqb k' k) eqn:E; [apply String.eqb_eq in E; congruence | reflexivity].
  - destruct (String.eqb k k0) eqn:E; cbn.
    + apply String.eqb_eq in E. subst k0.
      destruct (String.eqb k' k) eqn:E'; [apply String.eqb_eq in E'; congruence | reflexivity].
    + destruct (String.eqb k' k0); [reflexivity | exact IH].
Qed.

Lemma lookup_none_keys {A : Type} (k : string) (o : list (string * A)) :
  lookup k o = None <-> ~ In k (keys o).
Proof.
  induction o as [|[k0 v0] o IH]; cbn.
  - split; [intros _ [] | reflexivity].
  - destruct (String.eqb k k0) eqn:E.
    + apply String.eqb_eq in E. subst k0. split; [discriminate | intros H; exfalso; auto].
    + apply String.eqb_neq in E. rewrite IH. split.
      * intros H [H1 | H1]; [congruence | contradiction].
      * intros H H1. apply H. right. exact H1.
Qed.

Lemma has_keys {A : Type} (k : string) (o : list (string * A)) :
  has k o = true <-> In k (keys o).
Proof.
  unfold has. destruct (lookup k o) eqn:E.
  - split; [intros _ | reflexivity].
    destruct (in_dec string_dec k (keys o)) as [H | H]; [exact H|].
    apply lookup_none_keys in H. congruence.
  - apply lookup_none_keys in E. split; [discriminate | contradiction].
Qed.

Lemma set_absent {A : Type} (k : string) (v : A) (o : list (string * A)) :
  lookup k o = None -> set k v o = o ++ [(k, v)].
Proof.
  induction o as [|[k0 v0] o IH]; cbn; [reflexivity|].
  destruct (String.eqb k k0); [discriminate|].
  intros H. rewrite (IH H). reflexivity.
Qed.

Lemma keys_set_present {A : Type} (k : string) (v : A) (o : list (string * A)) :
  In k (keys o) -> keys (set k v o) = keys o.
Proof.
  unfold keys. induction o as [|[k0 v0] o IH]; cbn; [intros []|].
  destruct (String.eqb k k0) eqn:E; cbn.
  - apply String.eqb_eq in E. subst k0. reflexivity.
  - apply String.eqb_neq in E. intros [H | H]; [congruence|].
    rewrite (IH H). reflexivity.
Qed.

Lemma is_id_not_id (k : string) : is_id k = false -> String.eqb k "id" = false.
Proof.
  intros H. apply String.eqb_neq. intros ->. discriminate H.
Qed.

Lemma same_content_refl (m : Model.t) : same_content m m.
Proof. unfold same_content. repeat split. Qed.

Lemma same_content_trans (m1 m2 m3 : Model.t) :
  same_content m1 m2 -> same_content m2 m3 -> same_content m1 m3.
Proof. unfold same_content. intuition congruence. Qed.

Lemma hasOwnProperty_content (m m' : Model.t) (name : string) :
  same_content m m' -> Model.hasOwnProperty m' name = Model.hasOwnProperty m name.
Proof.
  intros (Hraw & _ & _ & _ & _ & Hown & _). unfold Model.hasOwnProperty.
  rewrite Hraw, Hown. reflexivity.
Qed.

(** Registering a validator changes no content. *)
Lemma addValidator_content (p : string) (v : Model.validator) (m : Model.t) :
  exists m', Model.addValidator p v m = (Ok tt, m') /\ same_content m m'.
Proof.
  unfold Model.addValidator. destruct (negb (Model.hasOwnProperty m p)).
  - exists m. split; [reflexivity | apply same_content_refl].
  - eexists. split; [reflexivity|]. unfold same_content. cbn. repeat split.
Qed.

Lemma addValidators_content (p : string) (rules : list (value -> bool)) (m : Model.t) :
  exists m',
    for_each (fun r => Model.addValidator p (Model.Rule r)) rules m = (Ok tt, m')
    /\ same_content m m'.
Proof.
  revert m. induction rules as [|r rules IH]; intros m; cbn [for_each].
  - exists m. split; [reflexivity | apply same_content_refl].
  - unfold JS.mbind.
    destruct (addValidator_content p (Model.Rule r) m) as (m1 & -> & H1).
    destruct (IH m1) as (m2 & -> & H2).
    exists m2. split; [reflexivity | eapply same_content_trans; eassumption].
Qed.

(** Closes [addField_new] once the validators are registered: [H]
    relates the instance with the new slot to the final one. *)
Ltac slot_added H Hown Hraw :=
  let Hr := fresh in let Hf := fresh in let Hi := fresh in let Ha := fresh in
  let Ho := fresh in let Hd := fresh in
  destruct H as (Hr & Hf & Hi & Ha & _ & Ho & Hd);
  cbn in Hr, Hf, Hi, Ha, Ho, Hd;
  do 3 eexists; (split; [reflexivity|]);
  rewrite Hr, Hf, Hi, Ha, Ho, Hd, Hown, set_overwrite, (set_absent _ _ _ Hraw);
  repeat split.

(** [addField] on a name that has no accessor yet: the field gets its
    slot at the end of [raw]; the other fields are untouched. *)
Lemma addField_new GUID (k : string) (m : Model.t) (ty : option Model.jstype) :
  is_id k = false ->
  lookup k (Model.raw m) = None ->
  Model.own m = [] ->
  In k (keys (Model.fields m)) ->
  Model.infer_type
    (match lookup k (Model.fields m) with
     | Some (Some c) => c
     | _ => Model.mkField None None None []
     end) = Ok ty ->
  exists m' dflt c',
    Model.addField GUID k true m = (Ok tt, m')
    /\ Model.raw m' = Model.raw m ++ [(k, dflt)]
    /\ Model.fields m' = set k (Some c') (Model.fields m)
    /\ Model.own m' = []
    /\ Model.idAttribute m' = Model.idAttribute m
    /\ Model.autoid m' = Model.autoid m
    /\ Model.dataMap m' = Model.dataMap m.
Proof.
  intros Hid Hraw Hown Hin Hty.
  unfold Model.addField. unfold is_id in Hid. rewrite Hid. cbn [negb].
  cbv [JS.mbind JS.gets JS.modify JS.lift JS.ret Model.draw_guid].
  unfold has at 1. rewrite Hraw. cbn [andb].
  cbn [Model.fields Model.with_own Model.with_fields Model.idAttribute Model.autoid].
  rewrite Hty.
  set (fc := match lookup k (Model.fields m) with
             | Some (Some c) => c
             | _ => Model.mkField None None None []
             end) in *.
  destruct (String.eqb k (Model.idAttribute m) && Model.autoid m) eqn:Eid;
    match goal with
    | |- context [for_each _ (Model.f_rules fc) ?m0] =>
        destruct (addValidators_content k (Model.f_rules fc) m0) as (m1 & -> & H1)
    end;
    destruct (match Model.f_required fc with Some b => b | None => false end).
  - destruct (addValidator_content k (Model.Required k) m1) as (m2 & -> & H2).
    pose proof (same_content_trans _ _ _ H1 H2) as H. slot_added H Hown Hraw.
  - slot_added H1 Hown Hraw.
  - destruct (addValidator_content k (Model.Required k) m1) as (m2 & -> & H2).
    pose proof (same_content_trans _ _ _ H1 H2) as H. slot_added H Hown Hraw.
  - slot_added H1 Hown Hraw.
Qed.

(** [addField] on [id], in any case: no accessor, no slot. *)
Lemma addField_id GUID (k : string) (m : Model.t) :
  is_id k = true ->
  exists m',
    Model.addField GUID k true m = (Ok tt, m')
    /\ Model.raw m' = Model.raw m
    /\ Model.fields m' = Model.fields m
    /\ Model.own m' = Model.own m
    /\ Model.idAttribute m' = Model.idAttribute m
    /\ Model.autoid m' = Model.autoid m
    /\ Model.dataMap m' = Model.dataMap m.
Proof.
  intros Hid. unfold Model.addField. unfold is_id in Hid. rewrite Hid. cbn [negb].
  destruct (strict_eq (Model.oid m) VNull && Model.autoid m);
    eexists; (split; [reflexivity|]); cbn; repeat split.
Qed.

Lemma lookup_in_nodup {A : Type} (k : string) (v : A) (o : list (string * A)) :
  NoDup (keys o) -> In (k, v) o -> lookup k o = Some v.
Proof.
  unfold keys. induction o as [|[k0 v0] o IH]; cbn; [intros _ []|].
  intros Hnd [H | H].
  - injection H as -> ->. rewrite String.eqb_refl. reflexivity.
  - inversion Hnd as [|? ? Hnot Hnd']; subst.
    destruct (String.eqb k k0) eqn:E.
    + apply String.eqb_eq in E. subst k0. exfalso. apply Hnot.
      change k with (fst (k, v)). apply in_map. exact H.
    + apply IH; assumption.
Qed.

Lemma lookup_map_values {A B : Type} (g : A -> B) (k : string) (o : list (string * A)) :
  lookup k (map (fun kd => (fst kd, g (snd kd))) o) = option_map g (lookup k o).
Proof.
  induction o as [|[k0 v0] o IH]; cbn; [reflexivity|].
  destruct (String.eqb k k0); [reflexivity | exact IH].
Qed.

Lemma keys_map_values {A B : Type} (g : A -> B) (o : list (string * A)) :
  keys (map (fun kd => (fst kd, g (snd kd))) o) = keys o.
Proof.
  unfold keys. rewrite map_map. reflexivity.
Qed.

(** The loop of the constructor over the names still to add. *)
Lemma addFields_loop GUID (cfg : Model.config) :
  serialisable_schema cfg ->
  forall (rest done : list string) (m : Model.t),
    done ++ rest = keys (schema_fields cfg) ->
    keys (Model.fields m) = keys (schema_fields cfg) ->
    keys (Model.raw m) = filter (fun k => negb (is_id k)) done ->
    Model.own m = [] ->
    (forall k, In k rest ->
       lookup k (Model.fields m)
       = option_map Model.declared (lookup k (schema_fields cfg))) ->
    exists m',
      for_each (fun field => Model.addField GUID field true) rest m = (Ok tt, m')
      /\ keys (Model.fields m') = keys (schema_fields cfg)
      /\ keys (Model.raw m') = schema_accessors cfg
      /\ Model.own m' = []
      /\ Model.idAttribute m' = Model.idAttribute m
      /\ Model.autoid m' = Model.autoid m
      /\ Model.dataMap m' = Model.dataMap m.
Proof.
  intros (_ & Hnd & Hok).
  induction rest as [|k rest IH]; intros done m Hsplit Hfields Hraw Hown Hdecl.
  - exists m. cbn [for_each]. split; [reflexivity|].
    rewrite app_nil_r in Hsplit. subst done. unfold schema_accessors.
    repeat split; assumption.
  - cbn [for_each]. unfold JS.mbind.
    assert (Hk : In k (keys (schema_fields cfg)))
      by (rewrite <- Hsplit; apply in_or_app; right; left; reflexivity).
    assert (Hfresh : ~ In k done /\ ~ In k rest).
    { rewrite <- Hsplit in Hnd. apply NoDup_remove in Hnd.
      destruct Hnd as [_ Hnot]. split; intros H; apply Hnot; apply in_or_app; auto. }
    destruct Hfresh as [Hdone Hrest].
    assert (Hsplit' : (done ++ [k]) ++ rest = keys (schema_fields cfg))
      by (rewrite <- app_assoc; exact Hsplit).
    destruct (is_id k) eqn:Eid.
    + destruct (addField_id GUID k m Eid) as (m1 & -> & Hr & Hf & Ho & Hi & Ha & Hd).
      destruct (IH (done ++ [k]) m1) as (m2 & -> & H2); try congruence.
      * rewrite Hr, Hraw, filter_app. cbn [filter]. rewrite Eid. cbn [negb].
        rewrite app_nil_r. reflexivity.
      * intros k' Hk'. rewrite Hf. apply Hdecl. right. exact Hk'.
      * exists m2. split; [reflexivity|].
        destruct H2 as (? & ? & ? & ? & ? & ?). repeat split; congruence.
    + unfold keys in Hk. apply in_map_iff in Hk. destruct Hk as ([k0 decl] & Hfst & Hin).
      cbn in Hfst. subst k0.
      pose proof (lookup_in_nodup _ _ _ Hnd Hin) as Hlook.
      rewrite Forall_forall in Hok. destruct (Hok _ Hin Eid) as (_ & ty & Hty).
      cbn [fst snd] in Hty.
      assert (Hnone : lookup k (Model.raw m) = None).
      { apply lookup_none_keys. rewrite Hraw. intros H. apply filter_In in H.
        apply Hdone. apply H. }
      assert (Hkin : In k (keys (Model.fields m))).
      { rewrite Hfields. change k with (fst (k, decl)). apply in_map. exact Hin. }
      destruct (addField_new GUID k m ty Eid Hnone Hown Hkin)
        as (m1 & dflt & c' & -> & Hr & Hf & Ho & Hi & Ha & Hd).
      { rewrite (Hdecl k (or_introl eq_refl)), Hlook. cbn [option_map].
        destruct (Model.declared decl); exact Hty. }
      destruct (IH (done ++ [k]) m1) as (m2 & -> & H2); try assumption.
      * rewrite Hf. rewrite keys_set_present; assumption.
      * rewrite Hr. unfold keys. rewrite map_app. fold (keys (Model.raw m)).
        rewrite Hraw, filter_app. cbn [filter map fst]. rewrite Eid. reflexivity.
      * intros k' Hk'. rewrite Hf, lookup_set_other.
        -- apply Hdecl. right. exact Hk'.
        -- intros ->. contradiction.
      * exists m2. split; [reflexivity|].
        destruct H2 as (? & ? & ? & ? & ? & ?). repeat split; congruence.
Qed.

(** Every instance the constructor makes of a serialisable schema
    conforms to it. *)
Lemma create_conforms GUID (ref : nat) (cfg : Model.config) :
  serialisable_schema cfg ->
  exists t, Model.create GUID ref cfg = Ok t /\ conforms cfg t.
Proof.
  intros Hcfg. unfold Model.create.
  fold (schema_fields cfg). fold (schema_idAttribute cfg). fold (schema_autoid cfg).
  match goal with
  | |- context [for_each _ _ ?m0] =>
      destruct (addFields_loop GUID cfg Hcfg (keys (schema_fields cfg)) [] m0)
        as (t & -> & Hf & Hr & Ho & Hi & Ha & Hd)
  end.
  - reflexivity.
  - cbn [Model.fields]. apply keys_map_values.
  - reflexivity.
  - reflexivity.
  - intros k _. cbn [Model.fields]. apply lookup_map_values.
  - exists t. split; [reflexivity|]. unfold conforms. cbn in Hi, Ha, Hd.
    repeat split; assumption.
Qed.

Lemma lookup_app_none {A : Type} (k : string) (pre o : list (string * A)) :
  lookup k pre = None -> lookup k (pre ++ o) = lookup k o.
Proof.
  induction pre as [|[k0 v0] pre IH]; cbn; [reflexivity|].
  destruct (String.eqb k k0); [discriminate | exact IH].
Qed.

Lemma key_start_ok_nonempty (k : string) :
  Model.key_start_ok k = true -> String.eqb k EmptyString = false.
Proof. destruct k; [discriminate | reflexivity]. Qed.

(** When every key of [raw] is a field with a name [serialize]
    accepts, [serialize] returns the content of [raw], in its order. *)
Lemma serialize_keys_all (m : Model.t) :
  NoDup (keys (Model.raw m)) ->
  forall (suf pre : obj),
    Model.raw m = pre ++ suf ->
    (forall k, In k (keys suf) ->
       has k (Model.fields m) = true /\ is_id k = false
       /\ Model.key_start_ok k = true) ->
    Model.serialize_keys m (keys suf) pre = Ok (pre ++ suf).
Proof.
  intros Hnd. induction suf as [|[k v] suf IH]; intros pre Hraw Hks.
  - cbn. rewrite app_nil_r. reflexivity.
  - cbn [keys map fst Model.serialize_keys].
    destruct (Hks k (or_introl eq_refl)) as (Hf & Hid & Hok).
    assert (Hpre : lookup k pre = None).
    { apply lookup_none_keys. intros Hin. rewrite Hraw in Hnd. unfold keys in Hnd.
      rewrite map_app in Hnd. cbn in Hnd. apply NoDup_remove_2 in Hnd.
      apply Hnd. apply in_or_app. left. exact Hin. }
    assert (Hlook : lookup k (Model.raw m) = Some v).
    { rewrite Hraw, lookup_app_none by exact Hpre. cbn. rewrite String.eqb_refl.
      reflexivity. }
    rewrite Hf, (is_id_not_id _ Hid), (lookup_has _ _ _ Hlook),
      (key_start_ok_nonempty _ Hok), Hok.
    cbn [negb andb]. unfold get. rewrite Hlook, (set_absent _ _ _ Hpre).
    change (map fst suf) with (keys suf). rewrite IH.
    + rewrite <- app_assoc. reflexivity.
    + rewrite Hraw, <- app_assoc. reflexivity.
    + intros k' Hk'. apply Hks. right. exact Hk'.
Qed.

Lemma accessors_nodup (cfg : Model.config) :
  serialisable_schema cfg -> NoDup (schema_accessors cfg).
Proof.
  intros (_ & Hnd & _). unfold schema_accessors. apply NoDup_filter. exact Hnd.
Qed.

Lemma accessor_facts (cfg : Model.config) (k : string) :
  serialisable_schema cfg ->
  In k (schema_accessors cfg) ->
  In k (keys (schema_fields cfg)) /\ is_id k = false /\ Model.key_start_ok k = true.
Proof.
  intros (_ & _ & Hok) Hin. unfold schema_accessors in Hin.
  apply filter_In in Hin. destruct Hin as [Hin Hid].
  apply negb_true_iff in Hid.
  split; [exact Hin|]. split; [exact Hid|].
  unfold keys in Hin. apply in_map_iff in Hin. destruct Hin as ([k0 d] & <- & Hin).
  rewrite Forall_forall in Hok. apply (Hok _ Hin). exact Hid.
Qed.

(** [serialize] of an instance of a serialisable schema. *)
Lemma serialize_conforming (cfg : Model.config) (m : Model.t) :
  serialisable_schema cfg -> conforms cfg m ->
  Model.serialize m = Ok (Model.raw m).
Proof.
  intros Hcfg (Hf & Hr & _). unfold Model.serialize.
  apply (serialize_keys_all m) with (pre := []).
  - rewrite Hr. apply accessors_nodup. exact Hcfg.
  - reflexivity.
  - intros k Hk. rewrite Hr in Hk.
    destruct (accessor_facts cfg k Hcfg Hk) as (Hin & Hid & Hok).
    split; [|split; assumption]. apply has_keys. rewrite Hf. exact Hin.
Qed.

(** [data] of an instance of a serialisable schema: the content of
    [raw], followed under [autoid] by the identity when the identity
    attribute has no slot in [raw]. *)
Lemma data_conforming (cfg : Model.config) (m : Model.t) :
  serialisable_schema cfg -> conforms cfg m ->
  Model.data m
  = Ok (if negb (has (schema_idAttribute cfg) (Model.raw m)) && schema_autoid cfg
        then Model.raw m
               ++ [(schema_idAttribute cfg,
                    if String.eqb (schema_idAttribute cfg) "id" then Model.oid m
                    else VUndef)]
        else Model.raw m).
Proof.
  intros Hcfg Hm. unfold Model.data.
  rewrite (serialize_conforming cfg m Hcfg Hm). cbn [JS.bind].
  destruct Hm as (_ & _ & Hi & Ha & Hd & Ho). destruct Hcfg as (Hmap & _).
  rewrite Hd, Hmap, Hi, Ha.
  destruct (has (schema_idAttribute cfg) (Model.raw m)) eqn:Ehas; cbn [negb andb];
    [reflexivity|].
  destruct (schema_autoid cfg); [|reflexivity].
  assert (Hnone : lookup (schema_idAttribute cfg) (Model.raw m) = None).
  { unfold has in Ehas. destruct (lookup _ _); [discriminate | reflexivity]. }
  rewrite (set_absent _ _ _ Hnone). unfold Model.prop. rewrite Hnone, Ho.
  destruct (String.eqb (schema_idAttribute cfg) "id"); reflexivity.
Qed.

Lemma data_content (m m' : Model.t) :
  same_content m m' -> Model.data m' = Model.data m.
Proof.
  intros H. pose proof (serialize_keys_content m m' (keys (Model.raw m)) [] H) as Hs.
  destruct H as (Hraw & Hfields & Hid & Hauto & Hoid & Hown & Hmap).
  unfold Model.data, Model.serialize, Model.prop.
  rewrite Hraw, Hs, Hid, Hauto, Hoid, Hown, Hmap. reflexivity.
Qed.

Lemma with_raw_same (m : Model.t) : Model.with_raw (Model.raw m) m = m.
Proof. destruct m. reflexivity. Qed.

Lemma lookup_app_some {A : Type} (k : string) (pre o : list (string * A)) (v : A) :
  lookup k pre = Some v -> lookup k (pre ++ o) = Some v.
Proof.
  induction pre as [|[k0 v0] pre IH]; cbn; [discriminate|].
  destruct (String.eqb k k0); [auto | exact IH].
Qed.

(** Two maps with the same distinct keys and the same values are the
    same list. *)
Lemma assoc_ext {A : Type} (o1 o2 : list (string * A)) :
  keys o1 = keys o2 ->
  NoDup (keys o1) ->
  (forall k, In k (keys o1) -> lookup k o1 = lookup k o2) ->
  o1 = o2.
Proof.
  unfold keys. revert o2.
  induction o1 as [|[k v] o1 IH]; intros [|[k' v'] o2]; cbn; try discriminate;
    [reflexivity|].
  intros Hk Hnd Hl. injection Hk as <- Hk.
  inversion Hnd as [|? ? Hnot Hnd']; subst.
  pose proof (Hl k (or_introl eq_refl)) as Hv. rewrite String.eqb_refl in Hv.
  injection Hv as <-. f_equal. apply IH; try assumption.
  intros k0 Hin. pose proof (Hl k0 (or_intror Hin)) as H0.
  destruct (String.eqb k0 k) eqn:E; [|exact H0].
  apply String.eqb_eq in E. subst k0. contradiction.
Qed.

Lemma write_slots_spec (d : obj) (ks : list string) :
  forall r,
    (forall k, In k ks -> In k (keys r)) ->
    keys (write_slots d ks r) = keys r
    /\ forall k, lookup k (write_slots d ks r)
                 = if in_dec string_dec k ks then Some (get k d) else lookup k r.
Proof.
  induction ks as [|k0 ks IH]; intros r Hin; cbn [write_slots fold_left].
  - split; [reflexivity|]. intros k. reflexivity.
  - fold (write_slots d ks (set k0 (get k0 d) r)).
    assert (Hk0 : In k0 (keys r)) by (apply Hin; left; reflexivity).
    destruct (IH (set k0 (get k0 d) r)) as [Hkeys Hlook].
    { intros k Hk. rewrite keys_set_present by exact Hk0. apply Hin. right. exact Hk. }
    split; [rewrite Hkeys; apply keys_set_present; exact Hk0|].
    intros k. rewrite Hlook.
    destruct (in_dec string_dec k ks) as [H | H];
      destruct (in_dec string_dec k (k0 :: ks)) as [H' | H']; try reflexivity.
    + exfalso. apply H'. right. exact H.
    + destruct H' as [-> | H']; [|contradiction]. apply lookup_set_same.
    + apply lookup_set_other. intros ->. apply H'. left. reflexivity.
Qed.

(** Writing, slot by slot, the values of a map with the same keys
    gives that map. *)
Lemma write_slots_all (d src r : obj) :
  keys r = keys src ->
  NoDup (keys src) ->
  (forall k, In k (keys src) -> lookup k d = lookup k src) ->
  write_slots d (keys src) r = src.
Proof.
  intros Hk Hnd Hd.
  destruct (write_slots_spec d (keys src) r) as [Hkeys Hlook].
  { intros k Hin. rewrite Hk. exact Hin. }
  apply assoc_ext.
  - rewrite Hkeys. exact Hk.
  - rewrite Hkeys, Hk. exact Hnd.
  - intros k Hin. rewrite Hkeys, Hk in Hin. rewrite Hlook.
    destruct (in_dec string_dec k (keys src)) as [_ | H]; [|contradiction].
    unfold get. rewrite (Hd k Hin).
    destruct (lookup k src) eqn:E; [reflexivity|].
    apply lookup_none_keys in E. contradiction.
Qed.

(** The loop of [load] over keys that are fields with a slot. *)
Lemma load_slots (d : obj) (ks : list string) :
  forall t,
    (forall k, In k ks -> In k (keys (Model.fields t)) /\ In k (keys (Model.raw t))) ->
    for_each (Model.load_key d) ks t
    = (Ok tt, Model.with_raw (write_slots d ks (Model.raw t)) t).
Proof.
  induction ks as [|k ks IH]; intros t Hin; cbn [for_each write_slots fold_left].
  - unfold JS.ret. rewrite with_raw_same. reflexivity.
  - destruct (Hin k (or_introl eq_refl)) as [Hf Hr].
    unfold JS.mbind. unfold Model.load_key at 1. unfold JS.modify.
    apply has_keys in Hf. apply has_keys in Hr. rewrite Hf, Hr.
    rewrite IH.
    + reflexivity.
    + intros k' Hk'. destruct (Hin k' (or_intror Hk')) as [Hf' Hr'].
      cbn [Model.fields Model.raw Model.with_raw].
      split; [exact Hf'|]. rewrite keys_set_present; [exact Hr' | apply has_keys; exact Hr].
Qed.

Lemma for_each_app {S A : Type} (f : A -> M S unit) (xs ys : list A) (s : S) :
  for_each f (xs ++ ys) s
  = match for_each f xs s with
    | (Ok _, s') => for_each f ys s'
    | (Throw e, s') => (Throw e, s')
    end.
Proof.
  revert s. induction xs as [|x xs IH]; intros s; cbn [app for_each].
  - reflexivity.
  - unfold JS.mbind. destruct (f x s) as [[[]|e] s']; [apply IH | reflexivity].
Qed.

Lemma id_in_schema_fields (cfg : Model.config) : In "id" (keys (schema_fields cfg)).
Proof.
  unfold schema_fields.
  destruct (has "id" _) eqn:E.
  - apply has_keys. exact E.
  - unfold keys. rewrite map_app. apply in_or_app. right. left. reflexivity.
Qed.

(** [load] of the data of an instance into another instance of the
    same serialisable schema: the receiver then has the same data. *)
Lemma load_conforming (cfg : Model.config) (s t : Model.t) (d : obj) :
  serialisable_schema cfg ->
  conforms cfg s ->
  conforms cfg t ->
  Model.data s = Ok d ->
  exists t',
    Model.load d t = (Ok tt, t') /\ conforms cfg t' /\ Model.data t' = Ok d.
Proof.
  intros Hcfg Hs Ht Hd.
  rewrite (data_conforming cfg s Hcfg Hs) in Hd. injection Hd as Hd.
  pose proof Hs as (Hsf & Hsr & Hsi & Hsa & Hsd & Hso).
  pose proof Ht as (Htf & Htr & Hti & Hta & Htd & Hto).
  pose proof Hcfg as (Hmap & Hnd & _).
  unfold Model.load, Model.reverseMap. rewrite Htd, Hmap.
  (* the state after the slots are written *)
  set (t1 := Model.with_raw (Model.raw s) t).
  assert (Hslots : for_each (Model.load_key d) (keys (Model.raw s)) t = (Ok tt, t1)).
  { rewrite load_slots.
    - rewrite write_slots_all; [reflexivity | congruence | | ].
      + rewrite Hsr. apply accessors_nodup. exact Hcfg.
      + intros k Hk. subst d.
        destruct (negb (has (schema_idAttribute cfg) (Model.raw s)) && schema_autoid cfg);
          [|reflexivity].
        destruct (lookup k (Model.raw s)) eqn:E.
        * apply lookup_app_some. exact E.
        * apply lookup_none_keys in E. contradiction.
    - intros k Hk. rewrite Hsr in Hk.
      destruct (accessor_facts cfg k Hcfg Hk) as (Hin & _).
      rewrite Htf, Htr. split; assumption. }
  assert (Ht1 : conforms cfg t1).
  { subst t1. unfold conforms. cbn. repeat split; assumption. }
  (* the identity, when the data carries it behind the slots *)
  assert (Hloop : exists t2,
             for_each (Model.load_key d) (keys d) t = (Ok tt, t2)
             /\ conforms cfg t2 /\ Model.data t2 = Ok d).
  { destruct (negb (has (schema_idAttribute cfg) (Model.raw s)) && schema_autoid cfg)
      eqn:Econd.
    - subst d. unfold keys at 1. rewrite map_app. fold (keys (Model.raw s)).
      rewrite for_each_app, Hslots. cbn [map fst for_each].
      unfold JS.mbind, Model.load_key, JS.modify, JS.ret.
      apply andb_true_iff in Econd. destruct Econd as [Ehas Eauto].
      apply negb_true_iff in Ehas.
      assert (Ehas1 : has (schema_idAttribute cfg) (Model.raw t1) = false)
        by (subst t1; exact Ehas).
      assert (Eid1 : Model.idAttribute t1 = schema_idAttribute cfg)
        by (subst t1; exact Hti).
      rewrite Ehas1, Eid1, String.eqb_refl.
      assert (Hnone : lookup (schema_idAttribute cfg) (Model.raw s) = None).
      { unfold has in Ehas. destruct (lookup _ _); [discriminate | reflexivity]. }
      assert (Hget : get (schema_idAttribute cfg)
                       (Model.raw s
                          ++ [(schema_idAttribute cfg,
                               if String.eqb (schema_idAttribute cfg) "id"
                               then Model.oid s else VUndef)])
                     = if String.eqb (schema_idAttribute cfg) "id"
                       then Model.oid s else VUndef).
      { unfold get. rewrite lookup_app_none by exact Hnone. cbn.
        rewrite String.eqb_refl. reflexivity. }
      rewrite Hget.
      destruct (has (schema_idAttribute cfg) (Model.fields t1)) eqn:Efield.
      + eexists. split; [reflexivity|].
        assert (Hc : conforms cfg
                       (Model.with_oid
                          (if String.eqb (schema_idAttribute cfg) "id"
                           then Model.oid s else VUndef) t1)).
        { subst t1. unfold conforms. cbn. repeat split; assumption. }
        split; [exact Hc|].
        rewrite (data_conforming cfg _ Hcfg Hc).
        subst t1. cbn [Model.raw Model.oid Model.with_oid Model.with_raw].
        rewrite Ehas, Eauto. cbn [negb andb].
        destruct (String.eqb (schema_idAttribute cfg) "id"); reflexivity.
      + exists t1. split; [reflexivity|]. split; [exact Ht1|].
        rewrite (data_conforming cfg _ Hcfg Ht1).
        subst t1. cbn [Model.raw Model.oid Model.with_raw].
        rewrite Ehas, Eauto. cbn [negb andb].
        destruct (String.eqb (schema_idAttribute cfg) "id") eqn:Eid; [|reflexivity].
        exfalso. apply String.eqb_eq in Eid.
        assert (Hin : has (schema_idAttribute cfg) (Model.fields t) = true).
        { apply has_keys. rewrite Htf, Eid. apply id_in_schema_fields. }
        cbn in Efield. congruence.
    - subst d. exists t1. split; [exact Hslots|]. split; [exact Ht1|].
      rewrite (data_conforming cfg _ Hcfg Ht1).
      subst t1. cbn [Model.raw Model.with_raw]. rewrite Econd. reflexivity. }
  destruct Hloop as (t2 & Hrun & Hc2 & Hd2).
  unfold JS.mbind. rewrite Hrun.
  unfold Model.setUnmodified, Model.checksum. rewrite Hd2. cbn [JS.bind].
  eexists. split; [reflexivity|]. split.
  - destruct Hc2 as (? & ? & ? & ? & ? & ?). unfold conforms. cbn. repeat split; assumption.
  - rewrite <- Hd2. apply data_content. unfold same_content. cbn. repeat split.
Qed.

Lemma map_result_inv {A B : Type} (f : A -> result B) (l : list A) (ys : list B) :
  Store.map_result f l = Ok ys -> Forall2 (fun x y => f x = Ok y) l ys.
Proof.
  revert ys. induction l as [|x l IH]; intros ys; cbn.
  - intros H. injection H as <-. constructor.
  - destruct (f x) as [y|e] eqn:Ey; cbn; [|discriminate].
    destruct (Store.map_result f l) as [ys'|e]; cbn; [|discriminate].
    intros H. injection H as <-. constructor; [exact Ey | apply IH; reflexivity].
Qed.




(** Reads the fields of a store written as a chain of updates. *)
Ltac store_fields :=
  cbn [Store.model Store._data Store._filters Store._index Store._created
       Store._deleted Store._loading Store.allowDuplicates Store.errorOnDuplicate
       Store.next_ref Store.emitted Store.with_data Store.with_index
       Store.with_created Store.with_deleted Store.with_loading
       Store.with_next_ref].






(** Why the schema is asked to have no [dataMap]: with a map that
    swaps two names the renaming loop of [data] overwrites one value with
    the other, and the data does not survive the round trip. *)
Example load_swapped_dataMap :
  let scfg := Store.mkConfig (Some Sample.swapped) None None None in
  let S := Sample.after (Store.add Sample.GUID (Store.AEntity Sample.one_two) false)
             (Store.create 0 scfg) in
  Store.data S = Ok [[("a", VNum 1)]]
  /\ Store.data
       (Sample.after (Store.load Sample.GUID (map Store.AObject [[("a", VNum 1)]]))
          (Store.create 0 scfg))
     = Ok [[("a", VNull)]].
Proof. repeat split. Qed.

(** Why the field names are asked to be ones [serialize] accepts: a
    record whose field [Name] is [undefined] has data, but the fresh
    instance that [load] makes for it holds [null] there, and its
    [serialize] throws. *)
Example load_capital_field_throws :
  let scfg := Store.mkConfig (Some Sample.capital) None None None in
  let S := Sample.after (Store.add Sample.GUID (Store.AEntity Sample.unnamed) false)
             (Store.create 0 scfg) in
  Store.data S = Ok [[]]
  /\ fst (Store.load Sample.GUID (map Store.AObject [[]]) (Store.create 0 scfg))
     = Throw "TypeError: Cannot read property 'indexOf' of undefined".
Proof. repeat split. Qed.

(* ================================================================== *)
(** ** The checksum reads one byte of each code unit *)
(* ================================================================== *)

Lemma land_lxor (a b c : Z) :
  Z.land (Z.lxor a b) c = Z.lxor (Z.land a c) (Z.land b c).
Proof.
  apply Z.bits_inj'. intros n Hn.
  rewrite Z.land_spec, !Z.lxor_spec, !Z.land_spec.
  destruct (Z.testbit a n), (Z.testbit b n), (Z.testbit c n); reflexivity.
Qed.

Lemma low_byte (a : Z) : Z.land a 255 = a mod 256.
Proof. change 255 with (Z.ones 8). rewrite Z.land_ones by lia. reflexivity. Qed.

Lemma ToInt32_low_byte (a : Z) : ToInt32 a mod 256 = a mod 256.
Proof.
  unfold ToInt32. cbv zeta.
  assert (H : (a mod 2 ^ 32) mod 256 = a mod 256).
  { apply Z.mod_mod_divide. exists (2 ^ 24). reflexivity. }
  destruct (a mod 2 ^ 32 <? 2 ^ 31); [exact H|].
  rewrite <- H.
  replace (a mod 2 ^ 32 - 2 ^ 32) with (a mod 2 ^ 32 + (- 2 ^ 24) * 256) by lia.
  apply Z.mod_add. lia.
Qed.

Lemma ToInt32_small (a : Z) : 0 <= a < 2 ^ 31 -> ToInt32 a = a.
Proof.
  intros H. unfold ToInt32. cbv zeta.
  rewrite Z.mod_small by lia.
  destruct (a <? 2 ^ 31) eqn:E; [reflexivity|]. apply Z.ltb_ge in E. lia.
Qed.

Lemma lxor_low_byte (a b : Z) :
  Z.lxor a b mod 256 = Z.lxor (a mod 256) (b mod 256).
Proof. rewrite <- !low_byte. apply land_lxor. Qed.

(** The position [checksum] reads in the table: the low bytes of the
    running value and of the code unit, combined. *)
Lemma table_index (crc code : Z) :
  JS.and (JS.xor crc code) 255 = Z.lxor (crc mod 256) (code mod 256).
Proof.
  unfold JS.and.
  rewrite (ToInt32_small 255) by lia.
  rewrite low_byte, ToInt32_low_byte.
  unfold JS.xor. rewrite ToInt32_low_byte, lxor_low_byte, !ToInt32_low_byte.
  apply ToInt32_small.
  rewrite <- lxor_low_byte.
  pose proof (Z.mod_pos_bound (Z.lxor crc code) 256). lia.
Qed.

Lemma crc_round_low_byte (crcTable : list Z) (crc code : Z) :
  Util.crc_round crcTable crc code = Util.crc_round crcTable crc (code mod 256).
Proof.
  unfold Util.crc_round. rewrite !table_index, Z.mod_mod by lia. reflexivity.
Qed.

(** X1. [checksum] depends on each code unit of the text only through
    its low byte: two texts whose code units agree modulo 256, position
    by position, have the same checksum, with any cached table. *)
Theorem checksum_reads_low_bytes (cache : option (list Z)) (str str' : list Z) :
  map (fun code => code mod 256) str = map (fun code => code mod 256) str' ->
  Util.checksum cache str = Util.checksum cache str'.
Proof.
  intros H. unfold Util.checksum. cbv zeta.
  set (crcTable := match cache with Some t => t | None => Util.makeCRCTable end).
  assert (Hfold : forall crc,
             fold_left (Util.crc_round crcTable) str crc
             = fold_left (Util.crc_round crcTable) str' crc).
  { clear -H. revert str' H.
    induction str as [|c str IH]; intros [|c' str'] H crc; try discriminate; [reflexivity|].
    cbn [map] in H. injection H as Hc H.
    cbn [fold_left]. rewrite (crc_round_low_byte crcTable crc c), Hc,
      <- (crc_round_low_byte crcTable crc c').
    apply IH. exact H. }
  rewrite Hfold. reflexivity.
Qed.

(** The code units 65 and 321 differ and have the same checksum. *)
Lemma checksum_reads_low_bytes_witness :
  Util.checksum None [65] = Util.checksum None [321].
Proof. apply checksum_reads_low_bytes. reflexivity. Defined.

Lemma table_entries :
  forallb
    (fun n =>
       match nth_error Util.makeCRCTable n with
       | Some entry =>
           (- 2 ^ 31 <=? entry) && (entry <? 2 ^ 31)
           && (Util.table_at Util.makeCRCTable (Z.of_nat n) =? entry)
       | None => false
       end)
    (seq 0 256) = true.
Proof. vm_compute. reflexivity. Qed.

(** X2. Every round of [checksum] reads an entry that [makeCRCTable]
    has written: the position [(crc ^ code) & 0xFF] is one of the 256 of
    the table, whatever the running value and the code unit, and the
    entry is a signed 32-bit number. *)
Theorem checksum_round_reads_table (crc code : Z) :
  exists entry,
    nth_error Util.makeCRCTable (Z.to_nat (JS.and (JS.xor crc code) 255)) = Some entry
    /\ Util.table_at Util.makeCRCTable (JS.and (JS.xor crc code) 255) = entry
    /\ - 2 ^ 31 <= entry < 2 ^ 31.
Proof.
  rewrite table_index. rewrite <- lxor_low_byte.
  pose proof (Z.mod_pos_bound (Z.lxor crc code) 256 ltac:(lia)) as Hi.
  set (i := Z.lxor crc code mod 256) in *.
  pose proof table_entries as H. rewrite forallb_forall in H.
  specialize (H (Z.to_nat i)). rewrite in_seq in H. specialize (H ltac:(lia)).
  destruct (nth_error Util.makeCRCTable (Z.to_nat i)) as [entry|]; [|discriminate].
  exists entry. rewrite Z2Nat.id in H by lia.
  apply andb_true_iff in H. destruct H as [H Ht]. apply andb_true_iff in H.
  destruct H as [H0 H1]. apply Z.leb_le in H0. apply Z.ltb_lt in H1. apply Z.eqb_eq in Ht.
  split; [reflexivity|]. split; [exact Ht | lia].
Qed.

(* ================================================================== *)
(** ** Filters *)
(* ================================================================== *)

Lemma filter_filter {A : Type} (f g : A -> bool) (l : list A) :
  filter g (filter f l) = filter (fun x => f x && g x) l.
Proof.
  induction l as [|x l IH]; [reflexivity|].
  cbn [filter]. destruct (f x); cbn [filter andb]; rewrite IH; reflexivity.
Qed.

Lemma filter_all {A : Type} (l : list A) : filter (fun _ => true) l = l.
Proof. induction l as [|x l IH]; [reflexivity|]. cbn [filter]. rewrite IH. reflexivity. Qed.

Lemma fold_filters (fs : list (Model.t -> bool)) (data : list Model.t) :
  fold_left (fun data f => filter f data) fs data
  = filter (fun r => forallb (fun f => f r) fs) data.
Proof.
  revert data. induction fs as [|f fs IH]; intros data.
  - cbn [fold_left forallb]. symmetry. apply filter_all.
  - cbn [fold_left forallb]. rewrite IH. apply filter_filter.
Qed.


Lemma filter_result_inv {A : Type} (f : A -> result bool) (l kept : list A) :
  Store.filter_result f l = Ok kept ->
  forall x, In x kept -> In x l /\ f x = Ok true.
Proof.
  revert kept. induction l as [|y l IH]; intros kept H x Hx.
  - cbn in H. injection H as <-. destruct Hx.
  - cbn [Store.filter_result] in H.
    destruct (f y) as [keep|e] eqn:Hy; [|discriminate]. cbn [JS.bind] in H.
    destruct (Store.filter_result f l) as [kept'|e]; [|discriminate]. cbn [JS.bind] in H.
    injection H as <-. destruct keep.
    + destruct Hx as [<-|Hx]; [split; [left; reflexivity | exact Hy]|].
      destruct (IH kept' eq_refl x Hx) as [Hin Hf]. split; [right; exact Hin | exact Hf].
    + destruct (IH kept' eq_refl x Hx) as [Hin Hf]. split; [right; exact Hin | exact Hf].
Qed.

Lemma no_true_count (bs : list bool) :
  (Z.of_nat (List.length (filter (fun b => b) bs)) =? 0) = true -> ~ In true bs.
Proof.
  intros H Hin. apply Z.eqb_eq in H.
  assert (Hf : In true (filter (fun b => b) bs)) by (apply filter_In; split; [exact Hin | reflexivity]).
  destruct (filter (fun b => b) bs); [destruct Hf | cbn [List.length] in H; lia].
Qed.

Lemma Forall2_in_left {A B : Type} (R : A -> B -> Prop) (l : list A) (l' : list B) :
  Forall2 R l l' -> forall x, In x l -> exists y, In y l' /\ R x y.
Proof.
  induction 1 as [|a b l l' Hab _ IH]; intros x Hx; [destruct Hx|].
  destruct Hx as [<-|Hx].
  - exists b. split; [left; reflexivity | exact Hab].
  - destruct (IH x Hx) as (y & Hy & Hxy). exists y. split; [right; exact Hy | exact Hxy].
Qed.

Lemma strict_eq_true (a b : value) : strict_eq a b = true <-> a = b.
Proof. unfold strict_eq. destruct (value_eq_dec a b); split; congruence. Qed.

Lemma strict_eq_refl (a : value) : strict_eq a a = true.
Proof. apply strict_eq_true. reflexivity. Qed.

(** X16. A record that [filtered] returns is a stored record that
    fails a filter, and no record that passes the filters has its
    checksum: a record the filters reject is left out of [filtered] when
    a record with the same data passes. *)
Theorem filtered_records_fail_a_filter (s : Store.t) (l : list Model.t) :
  Store.filtered s = Ok l ->
  forall r,
    In r l ->
    In r (Store._data s)
    /\ passes s r = false
    /\ forall rec, In rec (Store.records s) -> Model.checksum rec <> Model.checksum r.
Proof.
  intros H r Hr. unfold Store.filtered in H.
  destruct (filter_result_inv _ _ _ H r Hr) as [Hin Hkeep].
  destruct (Store.map_result _ (Store.records s)) as [same|e] eqn:Hsame; [|discriminate].
  cbn [JS.bind] in Hkeep. injection Hkeep as Hcount. apply no_true_count in Hcount.
  apply map_result_inv in Hsame.
  assert (Hdiff : forall rec, In rec (Store.records s) ->
                              Model.checksum rec <> Model.checksum r).
  { intros rec Hrec Heq.
    destruct (Forall2_in_left _ _ _ Hsame rec Hrec) as (y & Hy & Hcmp).
    rewrite Heq in Hcmp. destruct (Model.checksum r) as [c|e]; [|discriminate].
    cbn [JS.bind] in Hcmp. rewrite strict_eq_refl in Hcmp. injection Hcmp as <-.
    exact (Hcount Hy). }
  split; [exact Hin|]. split; [|exact Hdiff].
  destruct (passes s r) eqn:Hp; [|reflexivity].
  exfalso. apply (Hdiff r); [|reflexivity].
  unfold Store.records, Store.applyFilters. rewrite fold_filters.
  apply filter_In. split; [exact Hin | exact Hp].
Qed.

Lemma filtered_records_fail_a_filter_witness :
  In Sample.vaughn (Store._data Sample.doe_only)
  /\ passes Sample.doe_only Sample.vaughn = false
  /\ forall rec,
       In rec (Store.records Sample.doe_only) ->
       Model.checksum rec <> Model.checksum Sample.vaughn.
Proof.
  apply (filtered_records_fail_a_filter Sample.doe_only [Sample.vaughn]).
  - vm_compute. reflexivity.
  - left. reflexivity.
Defined.

(* ================================================================== *)
(** ** What [add] and [bulk] do to the store *)
(* ================================================================== *)

(** X4. When the record that stands for the argument is a Model
    instance and it is no duplicate, or the store allows duplicates,
    [add] returns it, puts it at the end of the records, enters it in the
    index under the position it gets, tracks it as created unless the
    store is loading or tracks it already, and emits [record.duplicate]
    for a duplicate and then [record.create] unless events are
    suppressed. *)
Theorem add_appends_record GUID (s s1 : Store.t) (data : Store.arg)
  (suppressEvent dupe : bool) (m : Model.t) :
  Store.resolve GUID data s = (Ok (Store.Entity m), s1) ->
  Store.isDuplicate s1 (Store.Entity m) = Ok dupe ->
  dupe = false \/ Store.allowDuplicates s = true ->
  exists s',
    Store.add GUID data suppressEvent s = (Ok (Some m), s')
    /\ Store._data s' = Store._data s ++ [m]
    /\ Store._index s'
       = Store.applyIndices m (Z.of_nat (List.length (Store._data s))) (Store._index s)
    /\ Store._created s'
       = (if negb (Store._loading s)
             && match Store.position m (Store._created s) with
                | None => true
                | Some _ => false
                end
          then Store._created s ++ [m] else Store._created s)
    /\ Store._deleted s' = Store._deleted s
    /\ Store.emitted s'
       = Store.emitted s
           ++ (if dupe then [Store.RecordDuplicate (Store.Entity m)] else [])
           ++ (if suppressEvent then [] else [Store.RecordCreate m]).
Proof.
  intros Hres Hdup Hok.
  assert (Hs1 : s1 = s \/ s1 = Store.with_next_ref (S (Store.next_ref s)) s)
    by exact (resolve_frame GUID data s s1 _ Hres).
  unfold Store.add. unfold JS.mbind at 1. rewrite Hres.
  unfold JS.mbind at 1. rewrite Hdup.
  assert (Hallow : Store.allowDuplicates s1 = Store.allowDuplicates s)
    by (destruct Hs1 as [->| ->]; reflexivity).
  destruct dupe.
  - destruct Hok as [Hok|Hok]; [discriminate|].
    cbv [JS.mbind JS.modify JS.ret Store.emit]. store_fields.
    rewrite Hallow, Hok. cbn [negb].
    destruct suppressEvent; eexists; (split; [reflexivity|]); store_fields;
      destruct Hs1 as [->| ->]; store_fields;
      destruct (negb (Store._loading s) && _); store_fields;
      rewrite ?app_nil_r; repeat split; rewrite <- ?app_assoc; reflexivity.
  - cbv [JS.mbind JS.modify JS.ret Store.emit].
    destruct suppressEvent; eexists; (split; [reflexivity|]); store_fields;
      destruct Hs1 as [->| ->]; store_fields;
      destruct (negb (Store._loading s) && _); store_fields;
      rewrite ?app_nil_r; repeat split; reflexivity.
Qed.

Lemma add_appends_record_witness :
  exists s',
    Store.add Sample.GUID (Store.AEntity Sample.newborn_a) false Sample.people
    = (Ok (Some Sample.newborn_a), s')
    /\ Store._data s' = Store._data Sample.people ++ [Sample.newborn_a]
    /\ Store._index s'
       = Store.applyIndices Sample.newborn_a
           (Z.of_nat (List.length (Store._data Sample.people)))
           (Store._index Sample.people)
    /\ Store._created s'
       = (if negb (Store._loading Sample.people)
             && match Store.position Sample.newborn_a (Store._created Sample.people) with
                | None => true
                | Some _ => false
                end
          then Store._created Sample.people ++ [Sample.newborn_a]
          else Store._created Sample.people)
    /\ Store._deleted s' = Store._deleted Sample.people
    /\ Store.emitted s'
       = Store.emitted Sample.people
           ++ (if false then [Store.RecordDuplicate (Store.Entity Sample.newborn_a)] else [])
           ++ (if false then [] else [Store.RecordCreate Sample.newborn_a]).
Proof.
  apply (add_appends_record Sample.GUID Sample.people Sample.people
           (Store.AEntity Sample.newborn_a) false false Sample.newborn_a).
  - reflexivity.
  - vm_compute. reflexivity.
  - left. reflexivity.
Defined.

(** X5. In a store with [allowDuplicates = false] and
    [errorOnDuplicate = false], [add] of a duplicate returns [undefined]:
    the records, the index and the tracking lists are what they were,
    and [record.duplicate] is the one event emitted. *)
Theorem add_duplicate_ignored GUID (s s1 : Store.t) (data : Store.arg)
  (suppressEvent : bool) (record : Store.candidate) :
  Store.resolve GUID data s = (Ok record, s1) ->
  Store.isDuplicate s1 record = Ok true ->
  Store.allowDuplicates s = false ->
  Store.errorOnDuplicate s = false ->
  exists s',
    Store.add GUID data suppressEvent s = (Ok None, s')
    /\ Store._data s' = Store._data s
    /\ Store._index s' = Store._index s
    /\ Store._created s' = Store._created s
    /\ Store._deleted s' = Store._deleted s
    /\ Store.emitted s' = Store.emitted s ++ [Store.RecordDuplicate record].
Proof.
  intros Hres Hdup Hallow Herr.
  assert (Hs1 : s1 = s \/ s1 = Store.with_next_ref (S (Store.next_ref s)) s)
    by exact (resolve_frame GUID data s s1 _ Hres).
  unfold Store.add. unfold JS.mbind at 1. rewrite Hres.
  unfold JS.mbind at 1. rewrite Hdup.
  cbv [JS.mbind JS.modify JS.ret Store.emit]. store_fields.
  destruct Hs1 as [->| ->]; store_fields; rewrite Hallow, Herr; cbn [negb];
    eexists; (split; [reflexivity|]); store_fields; repeat split.
Qed.

Lemma add_duplicate_ignored_witness :
  exists s',
    Store.add Sample.GUID (Store.AEntity Sample.doe_twin) false Sample.lenient_people
    = (Ok None, s')
    /\ Store._data s' = Store._data Sample.lenient_people
    /\ Store._index s' = Store._index Sample.lenient_people
    /\ Store._created s' = Store._created Sample.lenient_people
    /\ Store._deleted s' = Store._deleted Sample.lenient_people
    /\ Store.emitted s'
       = Store.emitted Sample.lenient_people
           ++ [Store.RecordDuplicate (Store.Entity Sample.doe_twin)].
Proof.
  apply (add_duplicate_ignored Sample.GUID Sample.lenient_people Sample.lenient_people
           (Store.AEntity Sample.doe_twin) false (Store.Entity Sample.doe_twin)).
  - reflexivity.
  - vm_compute. reflexivity.
  - reflexivity.
  - reflexivity.
Defined.

(** What [add] leaves alone whatever its outcome, and what it emits. *)
Lemma add_frame GUID (data : Store.arg) (suppressEvent : bool) (s s' : Store.t)
  (r : result (option Model.t)) :
  Store.add GUID data suppressEvent s = (r, s') ->
  Store._loading s' = Store._loading s
  /\ Store._deleted s' = Store._deleted s
  /\ (Store._loading s = true -> Store._created s' = Store._created s)
  /\ exists events,
       Store.emitted s' = Store.emitted s ++ events
       /\ (suppressEvent = true ->
           forall e, In e events -> exists record, e = Store.RecordDuplicate record).
Proof.
  unfold Store.add. unfold JS.mbind at 1.
  destruct (Store.resolve GUID data s) as [rr s1] eqn:Hres.
  assert (Hs1 : s1 = s \/ s1 = Store.with_next_ref (S (Store.next_ref s)) s)
    by exact (resolve_frame GUID data s s1 _ Hres).
  assert (Hnone : forall s0 : Store.t,
             exists events : list Store.event,
               Store.emitted s0 = Store.emitted s0 ++ events
               /\ (suppressEvent = true ->
                   forall e, In e events -> exists record, e = Store.RecordDuplicate record)).
  { intros s0. exists []. rewrite app_nil_r. split; [reflexivity|]. intros _ e []. }
  assert (Hdup : forall (s0 : Store.t) record,
             exists events : list Store.event,
               Store.emitted s0 ++ [Store.RecordDuplicate record]
               = Store.emitted s0 ++ events
               /\ (suppressEvent = true ->
                   forall e, In e events -> exists record, e = Store.RecordDuplicate record)).
  { intros s0 record. exists [Store.RecordDuplicate record]. split; [reflexivity|].
    intros _ e [<-|[]]. eexists; reflexivity. }
  destruct rr as [record|msg].
  2:{ intros H. injection H as _ <-. destruct Hs1 as [->| ->]; store_fields; auto. }
  unfold JS.mbind at 1.
  destruct (Store.isDuplicate s1 record) as [dupe|msg].
  2:{ intros H. injection H as _ <-. destruct Hs1 as [->| ->]; store_fields; auto. }
  cbv [JS.mbind JS.modify JS.ret JS.throw Store.emit]. store_fields.
  destruct dupe.
  - destruct (negb (Store.allowDuplicates s1)).
    + destruct (Store.errorOnDuplicate s1); intros H; injection H as _ <-;
        destruct Hs1 as [->| ->]; store_fields; auto.
    + destruct record as [m|o].
      * destruct suppressEvent; intros H; injection H as _ <-;
          destruct Hs1 as [->| ->]; store_fields;
          destruct (Store._loading s) eqn:Hl; cbn [negb andb]; store_fields;
          rewrite ?Hl; cbn [negb andb];
          try destruct (Store.position m (Store._created s)); store_fields; rewrite ?Hl;
          (split; [reflexivity|]); (split; [reflexivity|]);
          (split; [try reflexivity; try discriminate|]); try apply Hdup.
        all: exists [Store.RecordDuplicate (Store.Entity m); Store.RecordCreate m];
          rewrite <- app_assoc; (split; [reflexivity | discriminate]).
      * intros H; injection H as _ <-;
          destruct Hs1 as [->| ->]; store_fields; auto.
  - destruct record as [m|o].
    + destruct suppressEvent; intros H; injection H as _ <-;
        destruct Hs1 as [->| ->]; store_fields;
        destruct (Store._loading s) eqn:Hl; cbn [negb andb]; store_fields;
        rewrite ?Hl; cbn [negb andb];
        try destruct (Store.position m (Store._created s)); store_fields; rewrite ?Hl;
        (split; [reflexivity|]); (split; [reflexivity|]);
        (split; [try reflexivity; try discriminate|]); try apply Hnone.
      all: exists [Store.RecordCreate m]; (split; [reflexivity | discriminate]).
    + intros H; injection H as _ <-;
        destruct Hs1 as [->| ->]; store_fields; auto.
Qed.

Lemma bulk_loop_frame GUID (data : list Store.arg) :
  forall (s s' : Store.t) (r : result unit),
    for_each (fun record => JS.mbind (Store.add GUID record true) (fun _ => ret tt))
      data s = (r, s') ->
    Store._loading s' = Store._loading s
    /\ Store._deleted s' = Store._deleted s
    /\ (Store._loading s = true -> Store._created s' = Store._created s)
    /\ exists events,
         Store.emitted s' = Store.emitted s ++ events
         /\ forall e, In e events -> exists record, e = Store.RecordDuplicate record.
Proof.
  induction data as [|d rest IH]; intros s s' r H.
  - cbn in H. injection H as _ <-.
    split; [reflexivity|]. split; [reflexivity|]. split; [reflexivity|].
    exists []. rewrite app_nil_r. split; [reflexivity | intros e []].
  - cbn [for_each] in H. unfold JS.mbind at 1 2 in H.
    destruct (Store.add GUID d true s) as [r1 s1] eqn:Hadd.
    destruct (add_frame GUID d true s s1 r1 Hadd) as (Hl & Hd & Hc & ev1 & He1 & Hdup1).
    destruct r1 as [x|msg].
    + cbv [JS.ret] in H. apply IH in H.
      destruct H as (Hl' & Hd' & Hc' & ev2 & He2 & Hdup2).
      split; [congruence|]. split; [congruence|].
      split; [intros Ht; rewrite Hc' by congruence; apply Hc; exact Ht|].
      exists (ev1 ++ ev2). rewrite He2, He1, app_assoc. split; [reflexivity|].
      intros e Hin. apply in_app_or in Hin. destruct Hin; auto.
    + injection H as _ <-. repeat split; auto.
      exists ev1. split; [exact He1 | auto].
Qed.

(** X6. When [bulk] returns, the store is not loading, nothing is
    tracked as created or deleted, also not what was tracked before the
    call, and the events emitted are [record.duplicate] events followed
    by the event of the load: no [record.create]. *)
Theorem bulk_resets_tracking GUID (e : Store.event) (data : list Store.arg)
  (s s' : Store.t) :
  Store.bulk GUID e data s = (Ok tt, s') ->
  Store._loading s' = false
  /\ Store._created s' = []
  /\ Store._deleted s' = []
  /\ exists events,
       Store.emitted s' = Store.emitted s ++ events ++ [e]
       /\ forall e', In e' events -> exists record, e' = Store.RecordDuplicate record.
Proof.
  unfold Store.bulk. unfold JS.mbind at 1. cbv [JS.modify].
  unfold JS.mbind at 1.
  destruct (for_each _ data (Store.with_loading true s)) as [r s1] eqn:Hloop.
  destruct (bulk_loop_frame GUID data _ _ _ Hloop) as (_ & _ & _ & events & He & Hdup).
  destruct r as [[]|msg]; [|discriminate].
  cbv [JS.mbind JS.modify Store.emit]. intros H. injection H as <-.
  store_fields. repeat split.
  exists events. rewrite He. store_fields. rewrite app_assoc. split; [reflexivity | exact Hdup].
Qed.

Lemma bulk_resets_tracking_witness :
  let s := Sample.people in
  let s' := Sample.after (Store.bulk Sample.GUID Store.Load
                            [Store.AObject [("name", VStr "Roe"); ("age", VNum 1)]]) s in
  Store._created s <> []
  /\ Store._loading s' = false
  /\ Store._created s' = []
  /\ Store._deleted s' = []
  /\ exists events,
       Store.emitted s' = Store.emitted s ++ events ++ [Store.Load]
       /\ forall e', In e' events -> exists record, e' = Store.RecordDuplicate record.
Proof.
  split; [discriminate|].
  apply (bulk_resets_tracking Sample.GUID Store.Load
           [Store.AObject [("name", VStr "Roe"); ("age", VNum 1)]] Sample.people).
  vm_compute. reflexivity.
Defined.

(** X7. When an [add] inside [bulk] throws, the store is left
    loading: [_loading] stays [true], and the tracking lists are what
    they were before the call. *)
Theorem bulk_failure_keeps_loading GUID (e : Store.event) (data : list Store.arg)
  (s s' : Store.t) (msg : string) :
  Store.bulk GUID e data s = (Throw msg, s') ->
  Store._loading s' = true
  /\ Store._created s' = Store._created s
  /\ Store._deleted s' = Store._deleted s.
Proof.
  unfold Store.bulk. unfold JS.mbind at 1. cbv [JS.modify].
  unfold JS.mbind at 1.
  destruct (for_each _ data (Store.with_loading true s)) as [r s1] eqn:Hloop.
  destruct (bulk_loop_frame GUID data _ _ _ Hloop) as (Hl & Hd & Hc & _).
  destruct r as [[]|msg'].
  - cbv [JS.mbind JS.modify Store.emit]. discriminate.
  - intros H. injection H as _ <-.
    split; [exact Hl|]. split; [apply Hc; reflexivity | exact Hd].
Qed.

Lemma bulk_failure_keeps_loading_witness :
  let s := Sample.people in
  let s' := Sample.after (Store.bulk Sample.GUID Store.Load [Store.APrimitive]) s in
  Store._loading s = false
  /\ Store._loading s' = true
  /\ Store._created s' = Store._created s
  /\ Store._deleted s' = Store._deleted s.
Proof.
  split; [reflexivity|].
  apply (bulk_failure_keeps_loading Sample.GUID Store.Load [Store.APrimitive]
           Sample.people _ "Cannot add a non-object record.").
  reflexivity.
Defined.

(* ================================================================== *)
(** ** [remove] and [indexOf] at the edges *)
(* ================================================================== *)





Lemma findIndex_spec (c : Z) (l : list Model.t) (k i : Z) :
  0 <= k ->
  Store.findIndex (VNum c) l k = Ok i ->
  (i = -1 /\ Forall (fun rec => Model.checksum rec <> Ok c) l)
  \/ (k <= i
      /\ exists rec,
           nth_error l (Z.to_nat (i - k)) = Some rec
           /\ Model.checksum rec = Ok c
           /\ Forall (fun rec' => Model.checksum rec' <> Ok c)
                (firstn (Z.to_nat (i - k)) l)).
Proof.
  revert k. induction l as [|el rest IH]; intros k Hk H.
  - cbn in H. injection H as <-. left. split; [reflexivity | constructor].
  - cbn [Store.findIndex] in H.
    destruct (Model.checksum el) as [c'|e] eqn:Hel; [|discriminate].
    cbn [JS.bind] in H. unfold strict_eq in H.
    destruct (value_eq_dec (VNum c') (VNum c)) as [Heq|Hne].
    + injection H as <-. injection Heq as ->. right. split; [lia|].
      exists el. rewrite Z.sub_diag. cbn. repeat split; [exact Hel | constructor].
    + assert (Hc : Model.checksum el <> Ok c).
      { rewrite Hel. intros Heq. injection Heq as ->. contradiction. }
      destruct (IH (k + 1) ltac:(lia) H) as [[-> Hall]|[Hle (rec & Hnth & Hrec & Hall)]].
      * left. split; [reflexivity | constructor; assumption].
      * right. split; [lia|]. exists rec.
        replace (Z.to_nat (i - k)) with (S (Z.to_nat (i - (k + 1)))) by lia.
        cbn [nth_error firstn]. repeat split; [exact Hnth | exact Hrec |].
        constructor; assumption.
Qed.

(** X9. [indexOf] of a Model instance goes by content: it returns the
    first position whose record has the checksum of the instance, or -1
    when no record has it, whether or not the instance itself is
    stored. *)
Theorem indexOf_first_match (s : Store.t) (m : Model.t) (c i : Z) :
  Model.checksum m = Ok c ->
  Store.indexOf s (Store.Entity m) = Ok i ->
  (i = -1 /\ Forall (fun rec => Model.checksum rec <> Ok c) (Store._data s))
  \/ (0 <= i
      /\ exists rec,
           nth_error (Store._data s) (Z.to_nat i) = Some rec
           /\ Model.checksum rec = Ok c
           /\ Forall (fun rec' => Model.checksum rec' <> Ok c)
                (firstn (Z.to_nat i) (Store._data s))).
Proof.
  intros Hm H. unfold Store.indexOf in H. rewrite Hm in H. cbn [JS.bind] in H.
  apply findIndex_spec in H; [|lia].
  rewrite Z.sub_0_r in H. exact H.
Qed.

(** [doe_twin] is not in the store; its position is that of [doe]. *)
Lemma indexOf_first_match_witness :
  (0 = -1 /\ Forall (fun rec => Model.checksum rec <> Ok 2392557053)
               (Store._data Sample.twins))
  \/ (0 <= 0
      /\ exists rec,
           nth_error (Store._data Sample.twins) (Z.to_nat 0) = Some rec
           /\ Model.checksum rec = Ok 2392557053
           /\ Forall (fun rec' => Model.checksum rec' <> Ok 2392557053)
                (firstn (Z.to_nat 0) (Store._data Sample.twins))).
Proof.
  apply (indexOf_first_match Sample.twins Sample.doe_twin 2392557053 0).
  - vm_compute. reflexivity.
  - vm_compute. reflexivity.
Defined.

(** X25. [remove] of a Model instance whose checksum is not 0 goes by
    content: when a stored record has the checksum of the instance, the
    first such record is the one taken out of the records and returned,
    whether or not it is the instance given, and [record.delete] is
    emitted for it unless events are suppressed. *)
Theorem remove_record_goes_by_content GUID (s : Store.t) (m : Model.t)
  (suppressEvents : bool) (c i : Z) :
  Model.checksum m = Ok c ->
  c <> 0 ->
  Store.indexOf s (Store.Entity m) = Ok i ->
  0 <= i ->
  exists rec s',
    nth_error (Store._data s) (Z.to_nat i) = Some rec
    /\ Model.checksum rec = Ok c
    /\ Forall (fun rec' => Model.checksum rec' <> Ok c)
         (firstn (Z.to_nat i) (Store._data s))
    /\ Store.remove GUID (Store.TEntity m) suppressEvents s = (Ok (Some rec), s')
    /\ Store._data s'
       = firstn (Z.to_nat i) (Store._data s) ++ skipn (S (Z.to_nat i)) (Store._data s)
    /\ Store.emitted s'
       = Store.emitted s ++ (if suppressEvents then [] else [Store.RecordDelete rec]).
Proof.
  intros Hc Hne Hi Hpos.
  pose proof Hi as Hfind. unfold Store.indexOf in Hfind. rewrite Hc in Hfind.
  cbn [JS.bind] in Hfind. apply findIndex_spec in Hfind; [|lia].
  rewrite Z.sub_0_r in Hfind.
  destruct Hfind as [[-> _]|(_ & rec & Hnth & Hrec & Hall)]; [lia|].
  assert (Hneg : (i <? 0) = false) by (apply Z.ltb_ge; lia).
  assert (Hz : (c =? 0) = false) by (apply Z.eqb_neq; exact Hne).
  exists rec.
  unfold Store.remove, Store.dataIndex.
  unfold JS.mbind at 1. unfold JS.mbind at 1. unfold JS.lift at 1. rewrite Hc, Hz.
  cbn [negb]. unfold JS.mbind at 1. unfold JS.gets at 1. unfold JS.lift at 1.
  rewrite Hi, Hneg. unfold JS.mbind at 1.
  pose proof (splice_one _ _ _ Hnth) as Hsp. rewrite Z2Nat.id in Hsp by lia. rewrite Hsp.
  cbv [JS.mbind JS.modify JS.ret Store.emit]. rewrite unapplyIndices_id.
  destruct suppressEvents; eexists;
    (split; [exact Hnth|]); (split; [exact Hrec|]); (split; [exact Hall|]);
    (split; [reflexivity|]);
    store_fields;
    destruct (Store._loading s); cbn [negb];
    try destruct (Store.position rec (Store._created s));
    try destruct (Store.position rec (Store._deleted s));
    store_fields; rewrite ?app_nil_r; split; reflexivity.
Qed.

(** [doe_twin] is given; [doe], stored before it with the same data,
    is removed. *)
Lemma remove_record_goes_by_content_witness :
  exists rec s',
    nth_error (Store._data Sample.twins) (Z.to_nat 0) = Some rec
    /\ Model.checksum rec = Ok 2392557053
    /\ Forall (fun rec' => Model.checksum rec' <> Ok 2392557053)
         (firstn (Z.to_nat 0) (Store._data Sample.twins))
    /\ Store.remove Sample.GUID (Store.TEntity Sample.doe_twin) false Sample.twins
       = (Ok (Some rec), s')
    /\ Store._data s'
       = firstn (Z.to_nat 0) (Store._data Sample.twins)
           ++ skipn (S (Z.to_nat 0)) (Store._data Sample.twins)
    /\ Store.emitted s'
       = Store.emitted Sample.twins ++ (if false then [] else [Store.RecordDelete rec]).
Proof.
  apply (remove_record_goes_by_content Sample.GUID Sample.twins Sample.doe_twin false
           2392557053 0).
  - vm_compute. reflexivity.
  - discriminate.
  - vm_compute. reflexivity.
  - lia.
Defined.

(** [remove] of the second of two records with the same data takes the
    first. *)
Example remove_twin_takes_doe :
  fst (Store.remove Sample.GUID (Store.TEntity Sample.doe_twin) false Sample.twins)
  = Ok (Some Sample.doe)
  /\ Store._data (Sample.after (Store.remove Sample.GUID (Store.TEntity Sample.doe_twin) false)
                    Sample.twins)
     = [Sample.doe_twin].
Proof. vm_compute. split; reflexivity. Qed.

(* ================================================================== *)
(** ** An index in step with the records *)
(* ================================================================== *)

Lemma positions_from_app (f : string) (v : value) (l : list Model.t) (m : Model.t) :
  forall i,
    positions_from f v (l ++ [m]) i
    = positions_from f v l i
        ++ (if Model.hasOwnProperty m f && strict_eq (Model.prop m f) v
            then [VNum (i + Z.of_nat (List.length l))] else []).
Proof.
  induction l as [|r l IH]; intros i.
  - cbn [app positions_from List.length Z.of_nat]. rewrite Z.add_0_r.
    destruct (_ && _); reflexivity.
  - cbn [app positions_from List.length]. rewrite IH.
    replace (i + 1 + Z.of_nat (List.length l)) with (i + Z.of_nat (S (List.length l))) by lia.
    destruct (Model.hasOwnProperty r f && _); reflexivity.
Qed.

(** On buckets that are not empty, the test of [applyIndices] is the
    test of [getIndices]. *)
Lemma hd_matches (v : value) (b : Store.bucket) :
  b <> [] -> strict_eq (hd VUndef b) v = Store.bucket_matches v b.
Proof. destruct b; [contradiction | reflexivity]. Qed.

Lemma matches_app (v : value) (b : Store.bucket) (x : value) :
  b <> [] -> Store.bucket_matches v (b ++ [x]) = Store.bucket_matches v b.
Proof. destruct b; [contradiction | reflexivity]. Qed.

Lemma apply_bucket_other (w v : value) (n : Z) (values : list Store.bucket) :
  Forall (fun b => b <> []) values ->
  w <> v ->
  filter (Store.bucket_matches v) (Store.apply_bucket w n values)
  = filter (Store.bucket_matches v) values.
Proof.
  intros Hne Hwv. induction Hne as [|b rest Hb _ IH].
  - cbn. destruct (strict_eq w v) eqn:E; [apply strict_eq_true in E; contradiction|].
    reflexivity.
  - cbn [Store.apply_bucket]. rewrite (hd_matches w b Hb).
    destruct (Store.bucket_matches w b) eqn:E.
    + cbn [filter]. rewrite (matches_app v b _ Hb).
      assert (Hv : Store.bucket_matches v b = false).
      { rewrite (bucket_matches_head w b E). cbn.
        destruct (strict_eq w v) eqn:E'; [apply strict_eq_true in E'; contradiction|].
        reflexivity. }
      rewrite Hv. reflexivity.
    + cbn [filter]. rewrite IH. reflexivity.
Qed.

Lemma apply_bucket_same (w : value) (n : Z) (values : list Store.bucket) :
  Forall (fun b => b <> []) values ->
  filter (Store.bucket_matches w) (Store.apply_bucket w n values)
  = match filter (Store.bucket_matches w) values with
    | [] => [[w; VNum n]]
    | b :: rest => (b ++ [VNum n]) :: rest
    end.
Proof.
  intros Hne. induction Hne as [|b rest Hb _ IH].
  - cbn. rewrite strict_eq_refl. reflexivity.
  - cbn [Store.apply_bucket]. rewrite (hd_matches w b Hb).
    destruct (Store.bucket_matches w b) eqn:E.
    + cbn [filter]. rewrite (matches_app w b _ Hb), E. reflexivity.
    + cbn [filter]. rewrite E. exact IH.
Qed.

Lemma apply_bucket_nonempty (w : value) (n : Z) (values : list Store.bucket) :
  Forall (fun b => b <> []) values ->
  Forall (fun b => b <> []) (Store.apply_bucket w n values).
Proof.
  intros Hne. induction Hne as [|b rest Hb Hrest IH].
  - cbn. constructor; [discriminate | constructor].
  - cbn [Store.apply_bucket]. destruct (strict_eq (hd VUndef b) w).
    + constructor; [|exact Hrest]. destruct b; [contradiction | discriminate].
    + constructor; assumption.
Qed.

(** The buckets of one field stay in step when [applyIndices] runs for
    a record that goes to the end of the records. *)
Lemma indexes_append (f : string) (l : list Model.t) (m : Model.t)
  (values : list Store.bucket) :
  indexes f l values ->
  indexes f (l ++ [m])
    (if Model.hasOwnProperty m f
     then Store.apply_bucket (Model.prop m f) (Z.of_nat (List.length l)) values
     else values).
Proof.
  intros [Hne Hv]. unfold indexes, bucket_for in *.
  destruct (Model.hasOwnProperty m f) eqn:Hown.
  - split; [apply apply_bucket_nonempty; exact Hne|].
    intros v. rewrite positions_from_app, Hown. cbn [andb]. rewrite Z.add_0_l.
    destruct (strict_eq (Model.prop m f) v) eqn:E.
    + apply strict_eq_true in E. subst v.
      rewrite (apply_bucket_same _ _ _ Hne), Hv.
      destruct (positions_from f (Model.prop m f) l 0); reflexivity.
    + rewrite app_nil_r, <- Hv. apply apply_bucket_other; [exact Hne|].
      intros Heq. apply strict_eq_true in Heq. congruence.
  - split; [exact Hne|].
    intros v. rewrite positions_from_app, Hown. cbn [andb]. rewrite app_nil_r. apply Hv.
Qed.

Lemma lookup_applyIndices (record : Model.t) (n : Z) (f : string)
  (index : list (string * list Store.bucket)) :
  lookup f (Store.applyIndices record n index)
  = option_map
      (fun values =>
         if Model.hasOwnProperty record f
         then Store.apply_bucket (Model.prop record f) n values
         else values)
      (lookup f index).
Proof.
  unfold Store.applyIndices.
  induction index as [|[k values] index IH]; [reflexivity|].
  cbn [map fst snd]. destruct (Model.hasOwnProperty record k) eqn:Hown;
    cbn [lookup]; destruct (String.eqb f k) eqn:E; try exact IH;
    apply String.eqb_eq in E; subst k; rewrite Hown; reflexivity.
Qed.

Lemma applyIndices_in_step (l : list Model.t) (m : Model.t)
  (index : list (string * list Store.bucket)) :
  (forall f values, lookup f index = Some values -> indexes f l values) ->
  forall f values,
    lookup f (Store.applyIndices m (Z.of_nat (List.length l)) index) = Some values ->
    indexes f (l ++ [m]) values.
Proof.
  intros H f values. rewrite lookup_applyIndices.
  destruct (lookup f index) as [old|] eqn:E; [|discriminate].
  cbn [option_map]. intros Hv. injection Hv as <-.
  apply indexes_append. apply H. exact E.
Qed.

Lemma apply_all_in_step (rest : list Model.t) :
  forall (done : list Model.t) (index : list (string * list Store.bucket)),
    (forall f values, lookup f index = Some values -> indexes f done values) ->
    forall f values,
      lookup f (Store.apply_all rest (Z.of_nat (List.length done)) index) = Some values ->
      indexes f (done ++ rest) values.
Proof.
  induction rest as [|r rest IH]; intros done index H f values.
  - cbn [Store.apply_all]. rewrite app_nil_r. apply H.
  - cbn [Store.apply_all].
    replace (Z.of_nat (List.length done) + 1) with (Z.of_nat (List.length (done ++ [r])))
      by (rewrite length_app; cbn [List.length]; lia).
    replace (done ++ r :: rest) with ((done ++ [r]) ++ rest)
      by (rewrite <- app_assoc; reflexivity).
    apply IH. apply applyIndices_in_step. exact H.
Qed.

Lemma indexes_nil (f : string) : indexes f [] [].
Proof. split; [constructor | reflexivity]. Qed.

(** [reindex] leaves the index in step with the records. *)
Theorem reindex_in_step (s : Store.t) :
  index_in_step (snd (Store.reindex s)).
Proof.
  unfold Store.reindex, JS.modify, index_in_step. cbn [snd]. store_fields.
  apply (apply_all_in_step (Store._data s) []).
  intros f values. unfold Store.clearIndices.
  rewrite (lookup_map_values (fun _ : list Store.bucket => @nil Store.bucket)).
  destruct (lookup f (Store._index s)); [|discriminate].
  cbn [option_map]. intros H. injection H as <-. apply indexes_nil.
Qed.

Lemma reindex_after (s s' : Store.t) (r : result unit) :
  Store.reindex s = (r, s') ->
  r = Ok tt
  /\ Store._data s' = Store._data s
  /\ Store.emitted s' = Store.emitted s
  /\ index_in_step s'.
Proof.
  intros H. pose proof (reindex_in_step s) as Hstep. rewrite H in Hstep.
  unfold Store.reindex, JS.modify in H. injection H as <- <-.
  split; [reflexivity|]. split; [reflexivity|]. split; [reflexivity|]. exact Hstep.
Qed.

(** X10. [reindex] returns, leaves the records and the event log as
    they are, and leaves an index in step with the records: for every
    indexed field and every value, one bucket with the positions of the
    records that own the field with that value, in order, or no bucket
    when there is none.  The index it starts from does not matter. *)
Theorem reindex_rebuilds_index (s : Store.t) :
  fst (Store.reindex s) = Ok tt
  /\ Store._data (snd (Store.reindex s)) = Store._data s
  /\ Store.emitted (snd (Store.reindex s)) = Store.emitted s
  /\ index_in_step (snd (Store.reindex s)).
Proof.
  destruct (Store.reindex s) as [r s'] eqn:H. cbn [fst snd].
  exact (reindex_after s s' r H).
Qed.

(** [add] either leaves the records and the index alone or puts a
    record at the end of both. *)
Lemma add_data_index GUID (data : Store.arg) (suppressEvent : bool) (s s' : Store.t)
  (r : result (option Model.t)) :
  Store.add GUID data suppressEvent s = (r, s') ->
  (Store._data s' = Store._data s /\ Store._index s' = Store._index s)
  \/ exists m,
       r = Ok (Some m)
       /\ Store._data s' = Store._data s ++ [m]
       /\ Store._index s'
          = Store.applyIndices m (Z.of_nat (List.length (Store._data s))) (Store._index s).
Proof.
  unfold Store.add. unfold JS.mbind at 1.
  destruct (Store.resolve GUID data s) as [rr s1] eqn:Hres.
  assert (Hs1 : s1 = s \/ s1 = Store.with_next_ref (S (Store.next_ref s)) s)
    by exact (resolve_frame GUID data s s1 _ Hres).
  destruct rr as [record|msg].
  2:{ intros H. injection H as _ <-. left. destruct Hs1 as [->| ->]; split; reflexivity. }
  unfold JS.mbind at 1.
  destruct (Store.isDuplicate s1 record) as [dupe|msg].
  2:{ intros H. injection H as _ <-. left. destruct Hs1 as [->| ->]; split; reflexivity. }
  cbv [JS.mbind JS.modify JS.ret JS.throw Store.emit]. store_fields.
  destruct dupe.
  - destruct (negb (Store.allowDuplicates s1)).
    + destruct (Store.errorOnDuplicate s1); intros H; injection H as _ <-; left;
        destruct Hs1 as [->| ->]; split; reflexivity.
    + destruct record as [m|o].
      * intros H. right. exists m.
        destruct suppressEvent; injection H as <- <-;
          (split; [reflexivity|]);
          destruct Hs1 as [->| ->]; store_fields;
          destruct (negb (Store._loading s) && _); store_fields; split; reflexivity.
      * intros H; injection H as _ <-; left;
          destruct Hs1 as [->| ->]; split; reflexivity.
  - destruct record as [m|o].
    + intros H. right. exists m.
      destruct suppressEvent; injection H as <- <-;
        (split; [reflexivity|]);
        destruct Hs1 as [->| ->]; store_fields;
        destruct (negb (Store._loading s) && _); store_fields; split; reflexivity.
    + intros H; injection H as _ <-; left;
        destruct Hs1 as [->| ->]; split; reflexivity.
Qed.

Lemma add_in_step GUID (data : Store.arg) (suppressEvent : bool) (s s' : Store.t)
  (r : result (option Model.t)) :
  index_in_step s ->
  Store.add GUID data suppressEvent s = (r, s') ->
  index_in_step s'.
Proof.
  intros Hs Hadd. unfold index_in_step in *.
  destruct (add_data_index GUID data suppressEvent s s' r Hadd)
    as [[-> ->]|(m & _ & -> & ->)]; [exact Hs|].
  apply applyIndices_in_step. exact Hs.
Qed.

(** X11. [add] keeps the index in step with the records, whatever it
    is given and whether it returns a record, returns [undefined] or
    throws. *)
Theorem add_keeps_index_in_step GUID (data : Store.arg) (suppressEvent : bool)
  (s s' : Store.t) (r : result (option Model.t)) :
  index_in_step s ->
  Store.add GUID data suppressEvent s = (r, s') ->
  index_in_step s'.
Proof. exact (add_in_step GUID data suppressEvent s s' r). Qed.

Lemma bulk_loop_in_step GUID (data : list Store.arg) :
  forall (s s' : Store.t) (r : result unit),
    index_in_step s ->
    for_each (fun record => JS.mbind (Store.add GUID record true) (fun _ => ret tt))
      data s = (r, s') ->
    index_in_step s'.
Proof.
  induction data as [|d rest IH]; intros s s' r Hs H.
  - cbn in H. injection H as _ <-. exact Hs.
  - cbn [for_each] in H. unfold JS.mbind at 1 2 in H.
    destruct (Store.add GUID d true s) as [r1 s1] eqn:Hadd.
    pose proof (add_in_step GUID d true s s1 r1 Hs Hadd) as Hs1.
    destruct r1 as [x|msg].
    + cbv [JS.ret] in H. exact (IH _ _ _ Hs1 H).
    + injection H as _ <-. exact Hs1.
Qed.

Lemma index_in_step_ext (s s' : Store.t) :
  Store._data s' = Store._data s ->
  Store._index s' = Store._index s ->
  index_in_step s -> index_in_step s'.
Proof. unfold index_in_step. intros -> ->. auto. Qed.

Lemma bulk_in_step GUID (e : Store.event) (data : list Store.arg)
  (s s' : Store.t) (r : result unit) :
  index_in_step s ->
  Store.bulk GUID e data s = (r, s') ->
  index_in_step s'.
Proof.
  intros Hs. unfold Store.bulk. unfold JS.mbind at 1. cbv [JS.modify].
  unfold JS.mbind at 1.
  destruct (for_each _ data (Store.with_loading true s)) as [r1 s1] eqn:Hloop.
  assert (H1 : index_in_step s1).
  { apply (bulk_loop_in_step GUID data (Store.with_loading true s) s1 r1); [|exact Hloop].
    apply (index_in_step_ext s); [reflexivity | reflexivity | exact Hs]. }
  destruct r1 as [[]|msg].
  - cbv [JS.mbind JS.modify Store.emit]. intros H. injection H as _ <-.
    apply (index_in_step_ext s1); [reflexivity | reflexivity | exact H1].
  - intros H. injection H as _ <-. exact H1.
Qed.

Lemma lookup_fresh_index (names : list string) :
  forall (acc : list (string * list Store.bucket)) (f : string) (values : list Store.bucket),
    (forall g vs, lookup g acc = Some vs -> vs = []) ->
    lookup f (fold_left (fun o i => set i [] o) names acc) = Some values ->
    values = [].
Proof.
  induction names as [|n names IH]; intros acc f values Hacc.
  - cbn. apply Hacc.
  - cbn [fold_left]. apply IH. intros g vs.
    destruct (string_dec n g) as [->|Hne].
    + rewrite lookup_set_same. intros H. injection H as <-. reflexivity.
    + rewrite (lookup_set_other n g _ _ Hne). apply Hacc.
Qed.

Lemma create_in_step (first_ref : nat) (cfg : Store.config) :
  index_in_step (Store.create first_ref cfg).
Proof.
  unfold index_in_step, Store.create. store_fields. intros f values H.
  apply lookup_fresh_index in H; [subst values; apply indexes_nil|].
  intros g vs Hg. discriminate.
Qed.

Lemma clear_in_step (s : Store.t) : index_in_step (snd (Store.clear s)).
Proof.
  unfold Store.clear, index_in_step. cbv [JS.mbind JS.modify Store.emit]. cbn [snd].
  store_fields. intros f values. unfold Store.clearIndices.
  rewrite (lookup_map_values (fun _ : list Store.bucket => @nil Store.bucket)).
  destruct (lookup f (Store._index s)); [|discriminate].
  cbn [option_map]. intros H. injection H as <-. apply indexes_nil.
Qed.

(** X12. After [load] into a store that was just constructed, and
    after [reload] into any store, the index is in step with the
    records, also when the load stops at a record that [add] rejects with
    an error. *)
Theorem loads_leave_index_in_step GUID (first_ref : nat) (cfg : Store.config)
  (array : list Store.arg) (s : Store.t) :
  index_in_step (snd (Store.load GUID array (Store.create first_ref cfg)))
  /\ index_in_step (snd (Store.reload GUID array s)).
Proof.
  split.
  - destruct (Store.load GUID array (Store.create first_ref cfg)) as [r s'] eqn:H.
    cbn [snd]. unfold Store.load in H.
    exact (bulk_in_step GUID _ _ _ _ _ (create_in_step first_ref cfg) H).
  - unfold Store.reload. unfold JS.mbind at 1.
    pose proof (clear_in_step s) as Hc.
    destruct (Store.clear s) as [r s1]. cbn [snd] in Hc.
    destruct r as [[]|e]; [|exact Hc].
    destruct (Store.bulk GUID Store.Reload array s1) as [r' s'] eqn:H. cbn [snd].
    exact (bulk_in_step GUID _ _ _ _ _ Hc H).
Qed.

(** The index of the sample store of newborns is in step. *)
Lemma indexed_people_in_step : index_in_step Sample.indexed_people.
Proof.
  change Sample.indexed_people
    with (snd (Store.add Sample.GUID (Store.AEntity Sample.newborn_b) false
                 (snd (Store.add Sample.GUID (Store.AEntity Sample.newborn_a) false
                         (Store.create 0
                            (Store.mkConfig (Some Sample.person) (Some ["name"; "age"])
                               None None)))))).
  eapply add_in_step; [|apply surjective_pairing].
  eapply add_in_step; [|apply surjective_pairing].
  apply create_in_step.
Qed.

Lemma add_keeps_index_in_step_witness :
  index_in_step
    (Sample.after (Store.add Sample.GUID (Store.AEntity Sample.doe) false)
       Sample.indexed_people).
Proof.
  apply (add_keeps_index_in_step Sample.GUID (Store.AEntity Sample.doe) false
           Sample.indexed_people _
           (fst (Store.add Sample.GUID (Store.AEntity Sample.doe) false
                   Sample.indexed_people))).
  - exact indexed_people_in_step.
  - apply surjective_pairing.
Defined.

(* ================================================================== *)
(** ** What an object query returns *)
(* ================================================================== *)

Lemma getIndices_in_step (s : Store.t) (f : string) (v : value)
  (values : list Store.bucket) :
  index_in_step s ->
  lookup f (Store._index s) = Some values ->
  exists s',
    Store.getIndices f v s = (Ok (Some (positions_from f v (Store._data s) 0)), s')
    /\ Store._data s' = Store._data s.
Proof.
  intros Hs Hf. destruct (Hs f values Hf) as [_ Hv].
  unfold Store.getIndices. rewrite Hf, Hv. unfold bucket_for.
  destruct (positions_from f v (Store._data s) 0) as [|p ps].
  - exists s. split; reflexivity.
  - eexists. split; reflexivity.
Qed.

Lemma positions_data (s : Store.t) (f : string) (v : value) (l : list Model.t) :
  forall pre,
    Store._data s = pre ++ l ->
    map (Store.data_at s) (positions_from f v l (Z.of_nat (List.length pre)))
    = map Some
        (filter (fun r => Model.hasOwnProperty r f && strict_eq (Model.prop r f) v) l).
Proof.
  induction l as [|r l IH]; intros pre Hd; [reflexivity|].
  cbn [positions_from filter].
  assert (Hnext : map (Store.data_at s)
                    (positions_from f v l (Z.of_nat (List.length pre) + 1))
                  = map Some
                      (filter (fun r => Model.hasOwnProperty r f
                                        && strict_eq (Model.prop r f) v) l)).
  { replace (Z.of_nat (List.length pre) + 1) with (Z.of_nat (List.length (pre ++ [r])))
      by (rewrite length_app; cbn [List.length]; lia).
    apply IH. rewrite Hd, <- app_assoc. reflexivity. }
  destruct (Model.hasOwnProperty r f && strict_eq (Model.prop r f) v); [|exact Hnext].
  cbn [map]. rewrite Hnext. f_equal.
  unfold Store.data_at.
  destruct (Z.of_nat (List.length pre) <? 0) eqn:E; [apply Z.ltb_lt in E; lia|].
  rewrite Nat2Z.id, Hd, nth_error_app2 by lia.
  rewrite Nat.sub_diag. reflexivity.
Qed.

Lemma keep_agreeing_records (q : obj) (ks : list string) (l : list Model.t) :
  Store.keep_agreeing q ks (map Some l)
  = Ok (map Some (filter (Store.agrees q ks) l)).
Proof.
  induction l as [|r l IH]; [reflexivity|].
  cbn [map Store.keep_agreeing filter]. rewrite IH. cbn [JS.bind].
  destruct (Store.agrees q ks r); reflexivity.
Qed.

Lemma filter_implied {A : Type} (p q : A -> bool) (l : list A) :
  (forall x, p x = true -> q x = true) ->
  filter q (filter p l) = filter p l.
Proof.
  intros H. rewrite filter_filter. apply filter_ext.
  intros x. destruct (p x) eqn:E; [rewrite (H x E)|]; reflexivity.
Qed.

(** X13. On a store that holds a record and whose index is in step,
    [find] of an object with one key, an indexed field, returns the
    records that own the field with a value [===] to the one asked for,
    in the order of the store, and leaves the records as they are. *)
Theorem find_first_indexed_lookup (s : Store.t) (f : string) (v : value)
  (values : list Store.bucket) :
  index_in_step s ->
  Store._data s <> [] ->
  lookup f (Store._index s) = Some values ->
  exists s',
    Store.find (Store.QObject [(f, v)]) s
    = (Ok (Store.Many
             (map Some
                (filter (fun r => Model.hasOwnProperty r f
                                  && strict_eq (Model.prop r f) v)
                   (Store._data s)))), s')
    /\ Store._data s' = Store._data s.
Proof.
  intros Hs Hne Hf.
  destruct (getIndices_in_step s f v values Hs Hf) as (s' & Hget & Hd).
  exists s'. split; [|exact Hd].
  unfold Store.find. destruct (Store._data s) as [|first rest] eqn:Hdata; [contradiction|].
  cbn [keys map fst Store.consult]. unfold get at 1. cbn [lookup].
  rewrite String.eqb_refl.
  unfold JS.mbind at 1. unfold JS.mbind at 1. rewrite Hget.
  cbn [Store.consult app]. cbv [JS.ret JS.mbind JS.gets JS.lift].
  cbn [map app].
  pose proof (positions_data s' f v (first :: rest) [] Hd) as Hpos.
  cbn [List.length Z.of_nat] in Hpos. rewrite Hpos.
  rewrite keep_agreeing_records, filter_implied; [reflexivity|].
  intros r Hr. apply andb_true_iff in Hr. destruct Hr as [_ Hr].
  unfold Store.agrees. cbn [forallb]. unfold get. cbn [lookup].
  rewrite String.eqb_refl, strict_eq_sym, Hr. reflexivity.
Qed.

Lemma find_first_indexed_lookup_witness :
  exists s',
    Store.find (Store.QObject [("age", VNum 0)]) Sample.indexed_people
    = (Ok (Store.Many
             (map Some
                (filter (fun r => Model.hasOwnProperty r "age"
                                  && strict_eq (Model.prop r "age") (VNum 0))
                   (Store._data Sample.indexed_people)))), s')
    /\ Store._data s' = Store._data Sample.indexed_people.
Proof.
  apply (find_first_indexed_lookup Sample.indexed_people "age" (VNum 0)
           [[VNum 0; VNum 0; VNum 1]]).
  - exact indexed_people_in_step.
  - discriminate.
  - reflexivity.
Defined.





(** X26. [createIndex] does not index the records the store holds.  On
    a store with a model that holds a record, after [createIndex] of a
    field that had no index, [find] of an object with that field as its
    one key returns the empty array, whatever the value asked for and
    whatever the records hold; the records are what they were, and the
    one event emitted, unless suppressed, is that of the creation. *)
Theorem createIndex_hides_records (s s' : Store.t) (f : string) (v : value)
  (suppressEvents : bool) (events : list Store.index_event) :
  Store._data s <> [] ->
  lookup f (Store._index s) = None ->
  Store.createIndex f suppressEvents s = (Ok events, s') ->
  Store.find (Store.QObject [(f, v)]) s' = (Ok (Store.Many []), s')
  /\ Store._data s' = Store._data s
  /\ events = (if suppressEvents then [] else [Store.IndexCreated f]).
Proof.
  intros Hne Hf. unfold Store.createIndex.
  destruct (Store.model s); [|discriminate].
  unfold has. rewrite Hf. rewrite andb_true_r.
  intros H. injection H as <- <-. store_fields.
  split; [|split; [reflexivity | destruct suppressEvents; reflexivity]].
  unfold Store.find. store_fields.
  destruct (Store._data s) as [|first rest]; [contradiction|].
  cbn [keys map fst Store.consult]. unfold get at 1. cbn [lookup].
  rewrite String.eqb_refl.
  unfold JS.mbind at 1. unfold JS.mbind at 1. unfold Store.getIndices.
  store_fields. rewrite lookup_set_same. reflexivity.
Qed.

(** [people] has no index; the scan finds [doe] by name, and after
    [createIndex('name')] the same query finds nothing. *)
Lemma createIndex_hides_records_witness :
  let s' := Sample.after (Store.createIndex "name" false) Sample.people in
  fst (Store.find (Store.QObject [("name", VStr "Doe")]) Sample.people)
  = Ok (Store.Many [Some Sample.doe])
  /\ Store.find (Store.QObject [("name", VStr "Doe")]) s' = (Ok (Store.Many []), s')
  /\ Store._data s' = Store._data Sample.people
  /\ [Store.IndexCreated "name"] = (if false then [] else [Store.IndexCreated "name"]).
Proof.
  split; [reflexivity|].
  apply (createIndex_hides_records Sample.people _ "name" (VStr "Doe") false
           [Store.IndexCreated "name"]).
  - discriminate.
  - reflexivity.
  - reflexivity.
Defined.

(** A query on two indexed fields returns a record that matches both
    once per field: the positions found are concatenated, and the
    result of their deduplication is dropped. *)
Example find_two_indexed_keys :
  fst (Store.find (Store.QObject [("name", VStr "a"); ("age", VNum 0)])
         Sample.indexed_people)
  = Ok (Store.Many [Some Sample.newborn_a; Some Sample.newborn_a]).
Proof. vm_compute. reflexivity. Qed.

(* ================================================================== *)
(** ** [sort] *)
(* ================================================================== *)





(* ================================================================== *)
(** ** [deduplicate] *)
(* ================================================================== *)

Lemma text_index_first (x : string) (post : list string) :
  forall pre k,
    ~ In x pre -> Store.text_index x (pre ++ x :: post) k = k + Z.of_nat (List.length pre).
Proof.
  induction pre as [|y pre IH]; intros k Hno.
  - cbn. rewrite String.eqb_refl. lia.
  - cbn [app Store.text_index List.length].
    destruct (String.eqb y x) eqn:E.
    + apply String.eqb_eq in E. subst y. exfalso. apply Hno. left. reflexivity.
    + rewrite IH by (intros Hin; apply Hno; right; exact Hin). lia.
Qed.

Lemma later_copies_none (rest : list string) :
  forall pre,
    NoDup (pre ++ rest) ->
    Store.later_copies (pre ++ rest) rest (Z.of_nat (List.length pre)) = [].
Proof.
  induction rest as [|x rest IH]; intros pre Hnd; [reflexivity|].
  cbn [Store.later_copies].
  assert (Hx : ~ In x pre).
  { apply NoDup_remove_2 in Hnd. intros Hin. apply Hnd. apply in_or_app. left. exact Hin. }
  rewrite (text_index_first x rest pre 0 Hx), Z.add_0_l, Z.ltb_irrefl.
  specialize (IH (pre ++ [x])). rewrite <- app_assoc in IH. cbn [app] in IH.
  replace (Z.of_nat (List.length (pre ++ [x]))) with (Z.of_nat (List.length pre) + 1) in IH
    by (rewrite length_app; cbn [List.length]; lia).
  apply IH. exact Hnd.
Qed.

(** X17. [deduplicate] on a store whose records have pairwise
    different JSON texts returns and leaves the store as it is. *)
Theorem deduplicate_without_copies GUID (s : Store.t) (d : list obj) :
  Store.data s = Ok d ->
  NoDup (map JSON_stringify d) ->
  Store.deduplicate GUID s = (Ok tt, s).
Proof.
  intros Hd Hnd. unfold Store.deduplicate. unfold JS.mbind at 1. rewrite Hd.
  pose proof (later_copies_none (map JSON_stringify d) [] Hnd) as Hnone.
  cbn [app List.length Z.of_nat] in Hnone. rewrite Hnone. reflexivity.
Qed.

Lemma deduplicate_without_copies_witness :
  Store.deduplicate Sample.GUID Sample.people = (Ok tt, Sample.people).
Proof.
  apply (deduplicate_without_copies Sample.GUID Sample.people
           [[("name", VStr "Doe"); ("age", VNum 37)];
            [("name", VStr "Vaughn"); ("age", VNum 42)]]).
  - reflexivity.
  - vm_compute. repeat constructor; cbn; intuition discriminate.
Defined.

Lemma later_copies_range (all : list string) (rest : list string) :
  forall i p, In p (Store.later_copies all rest i) -> i <= p < i + Z.of_nat (List.length rest).
Proof.
  induction rest as [|x rest IH]; intros i p Hp; [destruct Hp|].
  cbn [Store.later_copies] in Hp. cbn [List.length].
  destruct (Store.text_index x all 0 <? i).
  - destruct Hp as [<-|Hp]; [lia|]. apply IH in Hp. lia.
  - apply IH in Hp. lia.
Qed.

Lemma map_result_length {A B : Type} (f : A -> result B) (l : list A) (ys : list B) :
  Store.map_result f l = Ok ys -> List.length ys = List.length l.
Proof.
  intros H. apply map_result_inv in H. induction H; cbn; congruence.
Qed.

(** [find(i)] for positions of records returns the records. *)
Lemma find_each_records (s : Store.t) (positions : list Z) :
  (forall i, In i positions -> 0 <= i < Z.of_nat (List.length (Store._data s))) ->
  exists ds,
    Store.find_each positions s = (Ok ds, s)
    /\ Forall (fun d => exists m, d = Store.One m) ds.
Proof.
  induction positions as [|i rest IH]; intros H.
  - exists []. split; [reflexivity | constructor].
  - destruct IH as (ds & Hds & Hall); [intros j Hj; apply H; right; exact Hj|].
    specialize (H i (or_introl eq_refl)).
    cbn [Store.find_each]. unfold JS.mbind at 1. unfold Store.find.
    destruct (Store._data s) as [|first l] eqn:Hdata; [cbn in H; lia|].
    destruct ((i <? 0) || (Z.of_nat (List.length (first :: l)) <=? i)) eqn:E.
    { apply orb_true_iff in E. destruct E as [E|E]; [apply Z.ltb_lt in E | apply Z.leb_le in E]; lia. }
    destruct (nth_error (first :: l) (Z.to_nat i)) as [m|] eqn:Hnth.
    + unfold JS.mbind. rewrite Hds. eexists. split; [reflexivity|].
      constructor; [eexists; reflexivity | exact Hall].
    + apply nth_error_None in Hnth. lia.
Qed.

(** The positions that [deduplicate] passes to [find] are positions of
    records: the results are records. *)
Lemma deduplicate_finds_records (s : Store.t) (d : list obj) :
  Store.data s = Ok d ->
  exists ds,
    Store.find_each
      (Store.later_copies (map JSON_stringify d) (map JSON_stringify d) 0) s
    = (Ok ds, s)
    /\ Forall (fun x => exists m, x = Store.One m) ds.
Proof.
  intros Hd. apply find_each_records. intros i Hi.
  apply later_copies_range in Hi. rewrite length_map in Hi.
  unfold Store.data in Hd. apply map_result_length in Hd. lia.
Qed.

(** [deduplicate] on two records with the same data: the first of the
    two is the one removed, and [record.delete] is emitted although
    [suppressEvents] defaults to [true]. *)
Example deduplicate_twins :
  let s' := Sample.after (Store.deduplicate Sample.GUID) Sample.twins in
  Store._data Sample.twins = [Sample.doe; Sample.doe_twin]
  /\ fst (Store.deduplicate Sample.GUID Sample.twins) = Ok tt
  /\ Store._data s' = [Sample.doe_twin]
  /\ Store.emitted s' = Store.emitted Sample.twins ++ [Store.RecordDelete Sample.doe].
Proof. vm_compute. repeat split. Qed.

(* ================================================================== *)
(** ** [NGN.dedupe] and [NGN.coalesce] *)
(* ================================================================== *)

Lemma indexOf_first (x : value) (post : list value) :
  forall pre k,
    ~ In x pre -> NGN.indexOf x (pre ++ x :: post) k = k + Z.of_nat (List.length pre).
Proof.
  induction pre as [|y pre IH]; intros k Hno.
  - cbn. rewrite strict_eq_refl. lia.
  - cbn [app NGN.indexOf List.length].
    destruct (strict_eq y x) eqn:E.
    + apply strict_eq_true in E. subst y. exfalso. apply Hno. left. reflexivity.
    + rewrite IH by (intros Hin; apply Hno; right; exact Hin). lia.
Qed.

Lemma indexOf_early (x : value) (post : list value) :
  forall pre k,
    In x pre -> NGN.indexOf x (pre ++ post) k < k + Z.of_nat (List.length pre).
Proof.
  induction pre as [|y pre IH]; intros k Hin; [destruct Hin|].
  cbn [app NGN.indexOf List.length].
  destruct (strict_eq y x) eqn:E; [lia|].
  destruct Hin as [->|Hin]; [rewrite strict_eq_refl in E; discriminate|].
  specialize (IH (k + 1) Hin). lia.
Qed.

Lemma dedupe_from_spec (rest : list value) :
  forall pre,
    NoDup (NGN.dedupe_from (pre ++ rest) rest (Z.of_nat (List.length pre)))
    /\ forall x,
         In x (NGN.dedupe_from (pre ++ rest) rest (Z.of_nat (List.length pre)))
         <-> In x rest /\ ~ In x pre.
Proof.
  induction rest as [|y rest IH]; intros pre.
  - cbn. split; [constructor | tauto].
  - cbn [NGN.dedupe_from].
    specialize (IH (pre ++ [y])).
    rewrite <- app_assoc in IH. cbn [app] in IH.
    replace (Z.of_nat (List.length (pre ++ [y]))) with (Z.of_nat (List.length pre) + 1) in IH
      by (rewrite length_app; cbn [List.length]; lia).
    destruct IH as [Hnd Hin].
    destruct (in_dec value_eq_dec y pre) as [Hy|Hy].
    + pose proof (indexOf_early y (y :: rest) pre 0 Hy) as Hlt.
      destruct (NGN.indexOf y (pre ++ y :: rest) 0 =? Z.of_nat (List.length pre)) eqn:E;
        [apply Z.eqb_eq in E; lia|].
      split; [exact Hnd|]. intros x. rewrite Hin, in_app_iff. cbn [In].
      split.
      * intros [Hx Hno]. split; [right; exact Hx | tauto].
      * intros [[<-|Hx] Hno]; [contradiction|]. split; [exact Hx|].
        intros [Hp|[<-|[]]]; contradiction.
    + rewrite (indexOf_first y rest pre 0 Hy), Z.add_0_l, Z.eqb_refl.
      split.
      * constructor; [|exact Hnd]. rewrite Hin, in_app_iff. cbn [In]. tauto.
      * intros x. cbn [In]. rewrite Hin, in_app_iff. cbn [In].
        destruct (value_eq_dec y x) as [<-|Hne]; [tauto|]. tauto.
Qed.

(** X18. [NGN.dedupe] returns an array without repetition that has
    exactly the elements of its argument, for an array of primitives
    other than [NaN]. *)
Theorem dedupe_keeps_one_of_each (array : list value) :
  NoDup (NGN.dedupe array) /\ forall x, In x (NGN.dedupe array) <-> In x array.
Proof.
  unfold NGN.dedupe. destruct (dedupe_from_spec array []) as [Hnd Hin].
  cbn [app List.length Z.of_nat] in *. split; [exact Hnd|].
  intros x. rewrite Hin. cbn [In]. tauto.
Qed.

Lemma coalesce_cons (a : value) (args : list value) :
  ((a = VUndef \/ a = VNull) /\ NGN.coalesce (a :: args) = NGN.coalesce args)
  \/ (a <> VUndef /\ a <> VNull /\ NGN.coalesce (a :: args) = a).
Proof.
  destruct a; cbn;
    [left; split; [left|]; reflexivity
    |left; split; [right|]; reflexivity
    |right; repeat split; discriminate ..].
Qed.

(** X19. [NGN.coalesce] returns its first argument that is neither
    [undefined] nor [null]; when there is none, also when there is no
    argument, it returns [null].  It never returns [undefined]. *)
Theorem coalesce_first_defined (args : list value) :
  (NGN.coalesce args = VNull /\ Forall (fun a => a = VUndef \/ a = VNull) args)
  \/ exists pre v post,
       args = pre ++ v :: post
       /\ Forall (fun a => a = VUndef \/ a = VNull) pre
       /\ v <> VUndef /\ v <> VNull
       /\ NGN.coalesce args = v.
Proof.
  induction args as [|a args IH].
  - left. split; [reflexivity | constructor].
  - destruct (coalesce_cons a args) as [[Ha ->]|(Hu & Hn & ->)].
    + destruct IH as [[Hn Hall]|(pre & v & post & -> & Hpre & Hv1 & Hv2 & Hc)].
      * left. split; [exact Hn | constructor; assumption].
      * right. exists (a :: pre), v, post. split; [reflexivity|].
        split; [constructor; assumption|]. auto.
    + right. exists [], a, args. split; [reflexivity|]. split; [constructor|]. auto.
Qed.

(* ================================================================== *)
(** ** Model: [load], [undo] of a removal, [validate], [serialize] *)
(* ================================================================== *)

Lemma setUnmodified_post (m1 m' : Model.t) :
  Model.setUnmodified m1 = (Ok tt, m') ->
  Model.changelog m' = []
  /\ Model.modified m' = Ok false
  /\ Model.data m' = Model.data m1
  /\ exists c, Model.checksum m' = Ok c /\ Model.benchmark m' = VNum c.
Proof.
  unfold Model.setUnmodified. destruct (Model.checksum m1) as [c|e] eqn:Hc; [|discriminate].
  intros H. injection H as <-.
  assert (Hcontent : same_content m1
                       (Model.with_changelog [] (Model.with_benchmark (VNum c) m1)))
    by (unfold same_content; repeat split).
  assert (Hsame : Model.checksum (Model.with_changelog [] (Model.with_benchmark (VNum c) m1))
                  = Ok c)
    by (rewrite <- Hc; apply checksum_content; exact Hcontent).
  split; [reflexivity|]. split; [|split].
  - unfold Model.modified. rewrite Hsame.
    cbn [JS.bind Model.benchmark Model.with_changelog Model.with_benchmark].
    rewrite strict_eq_refl. reflexivity.
  - apply data_content. exact Hcontent.
  - exists c. split; [exact Hsame | reflexivity].
Qed.

(** X20. When [load] returns, the changelog and the history of the
    instance are empty, its benchmark is its checksum, and [modified] is
    [false], whatever the instance went through before. *)
Theorem load_leaves_unmodified (d : obj) (m m' : Model.t) :
  Model.load d m = (Ok tt, m') ->
  Model.changelog m' = []
  /\ Model.modified m' = Ok false
  /\ fst (Model.history m') = Ok []
  /\ exists c, Model.checksum m' = Ok c /\ Model.benchmark m' = VNum c.
Proof.
  unfold Model.load, JS.mbind.
  match goal with
  | |- context [for_each ?f ?l m] => destruct (for_each f l m) as [r m1]
  end.
  destruct r as [[]|e]; [|discriminate].
  intros H. apply setUnmodified_post in H. destruct H as (Hlog & Hmod & _ & Hc).
  split; [exact Hlog|]. split; [exact Hmod|]. split; [|exact Hc].
  unfold Model.history. rewrite Hlog. reflexivity.
Qed.

Lemma load_leaves_unmodified_witness :
  let m' := Sample.after (Model.load [("name", VStr "Roe")]) Sample.edited_twice in
  Model.changelog m' = []
  /\ Model.modified m' = Ok false
  /\ fst (Model.history m') = Ok []
  /\ exists c, Model.checksum m' = Ok c /\ Model.benchmark m' = VNum c.
Proof.
  apply (load_leaves_unmodified [("name", VStr "Roe")] Sample.edited_twice).
  vm_compute. reflexivity.
Defined.

(** X21. The loader of a serialisable schema, given the data of an
    instance of the schema, returns an instance with that data and with
    the checksum of the first, unmodified and with an empty
    changelog. *)
Theorem model_round_trip GUID (ref : nat) (cfg : Model.config) (s : Model.t) (d : obj) :
  serialisable_schema cfg ->
  conforms cfg s ->
  Model.data s = Ok d ->
  exists t,
    Model.construct GUID ref cfg (Some d) = Ok t
    /\ Model.data t = Ok d
    /\ Model.checksum t = Model.checksum s
    /\ Model.modified t = Ok false
    /\ Model.changelog t = [].
Proof.
  intros Hcfg Hs Hd. unfold Model.construct.
  destruct (create_conforms GUID ref cfg Hcfg) as (t0 & -> & Ht0). cbn [JS.bind].
  destruct (load_conforming cfg s t0 d Hcfg Hs Ht0 Hd) as (t & Hload & _ & Hdt).
  rewrite Hload. exists t. split; [reflexivity|]. split; [exact Hdt|].
  split; [unfold Model.checksum; rewrite Hdt, Hd; reflexivity|].
  unfold Model.load, JS.mbind in Hload.
  match type of Hload with
  | context [for_each ?f ?l t0] => destruct (for_each f l t0) as [r m1]
  end.
  destruct r as [[]|e]; [|discriminate].
  apply setUnmodified_post in Hload. destruct Hload as (Hlog & Hmod & _).
  split; assumption.
Qed.

Lemma model_round_trip_witness :
  exists t,
    Model.construct Sample.GUID 7 Sample.person
      (Some [("name", VStr "Doe"); ("age", VNum 37)]) = Ok t
    /\ Model.data t = Ok [("name", VStr "Doe"); ("age", VNum 37)]
    /\ Model.checksum t = Model.checksum Sample.doe
    /\ Model.modified t = Ok false
    /\ Model.changelog t = [].
Proof.
  apply (model_round_trip Sample.GUID 7 Sample.person Sample.doe).
  - split; [reflexivity|]. split.
    + repeat constructor; cbn; intuition discriminate.
    + constructor; [intros _; split; [reflexivity | eexists; reflexivity]|].
      constructor; [intros _; split; [reflexivity | eexists; reflexivity]|].
      constructor; [discriminate | constructor].
  - repeat split.
  - reflexivity.
Defined.













(** [removeField] followed by [undo]: the field is back, its value is
    not, and the changelog has grown. *)
Example undo_removeField_age :
  let m := Sample.after (Model.undo Sample.GUID None) Sample.doe_without_age in
  Model.prop Sample.doe "age" = VNum 37
  /\ Model.prop m "age" = VUndef
  /\ List.length (Model.changelog m) = 2%nat.
Proof. vm_compute. repeat split. Qed.

Lemma serialize_keys_rejects (m : Model.t) (k : string) (ks : list string) :
  In k ks ->
  has k (Model.fields m) = true ->
  k <> "id" ->
  Model.key_start_ok k = false ->
  get k (Model.raw m) <> VUndef ->
  forall rtn,
    Model.serialize_keys m ks rtn
    = Throw "TypeError: Cannot read property 'indexOf' of undefined".
Proof.
  intros Hin Hf Hid Hstart Hdef.
  induction ks as [|key0 ks IH]; intros rtn; [destruct Hin|].
  cbn [Model.serialize_keys].
  destruct (string_dec key0 k) as [->|Hne].
  - rewrite Hf. destruct (String.eqb k "id") eqn:E; [apply String.eqb_eq in E; contradiction|].
    rewrite Hstart, andb_false_r.
    destruct (strict_eq (get k (Model.raw m)) VUndef) eqn:Eu;
      [apply strict_eq_true in Eu; contradiction | reflexivity].
  - destruct Hin as [Heq|Hin]; [contradiction|].
    repeat match goal with
           | |- context [if ?c then _ else _] => destruct c
           end; try reflexivity; apply (IH Hin).
Qed.

(** X24. [serialize], and with it [data] and [checksum], throws on an
    instance that holds a value other than [undefined] under a declared
    field whose name does not start with a lower-case letter, a digit or
    a space. *)
Theorem serialize_rejects_field_name (m : Model.t) (k : string) :
  In k (keys (Model.raw m)) ->
  has k (Model.fields m) = true ->
  k <> "id" ->
  Model.key_start_ok k = false ->
  get k (Model.raw m) <> VUndef ->
  Model.serialize m = Throw "TypeError: Cannot read property 'indexOf' of undefined"
  /\ Model.data m = Throw "TypeError: Cannot read property 'indexOf' of undefined"
  /\ Model.checksum m = Throw "TypeError: Cannot read property 'indexOf' of undefined".
Proof.
  intros Hin Hf Hid Hstart Hdef.
  assert (H : Model.serialize m
              = Throw "TypeError: Cannot read property 'indexOf' of undefined")
    by (apply (serialize_keys_rejects m k); assumption).
  split; [exact H|]. unfold Model.checksum, Model.data. rewrite H. split; reflexivity.
Qed.

(** A schema with the field [Name]: the instance holds [null] there
    from its construction. *)
Lemma serialize_rejects_field_name_witness :
  Model.serialize Sample.titled
  = Throw "TypeError: Cannot read property 'indexOf' of undefined"
  /\ Model.data Sample.titled
     = Throw "TypeError: Cannot read property 'indexOf' of undefined"
  /\ Model.checksum Sample.titled
     = Throw "TypeError: Cannot read property 'indexOf' of undefined".
Proof.
  apply (serialize_rejects_field_name Sample.titled "Name").
  - left. reflexivity.
  - reflexivity.
  - discriminate.
  - reflexivity.
  - discriminate.
Defined.
